(** * Vaquill: the round-based adjudication engine

    A shallow embedding of the services that drive a mock trial:

    - [app/services/verdict_orchestrator.py]  (round-0 verdict),
    - [app/services/argument_orchestrator.py] (argument rounds),
    - [app/services/case_service.py]          (case creation and update),
    - [app/api/cases.py]                      ([finalize_case]).

    The SQLAlchemy session is a store of four tables.  The [cases] table
    is keyed by its primary key; the other tables are rows in insertion
    order, which is the order [.first()] and [.all()] see.  Every write
    in the source is followed by [db.commit()], so an exception never
    undoes a write that precedes it: operations return the store they
    leave behind together with either an exception or a value.

    The OpenAI client is an input of each operation (a reply for every
    request), and every request sent is appended to a log.  Requests are
    served one after the other: a history is a list of whole requests. *)

From Stdlib Require Import QArith.
From stdpp Require Import base gmap strings list pretty.

Local Open Scope Z_scope.
Local Open Scope string_scope.
Local Open Scope list_scope.
Local Set Warnings "-register-all".

(** ** Python values *)

(** [uuid.UUID], by its canonical text ([str(case_id)] is the text). *)
Definition UUID := string.

(** [datetime], as seconds on some clock. *)
Definition datetime := Z.

(** What [json.loads] returns.  A [dict] is kept as its items; finite
    floats are rationals. *)
Inductive json : Type :=
  | JNull
  | JBool (b : bool)
  | JInt (n : Z)
  | JFloat (q : Q)
  | JStr (s : string)
  | JArr (xs : list json)
  | JObj (items : list (string * json)).

(** Exceptions, with their [str(e)]. *)
Inductive exn : Type :=
  | Exception (msg : string)
  | ValueError (msg : string)
  | TypeError (msg : string)
  | AttributeError (msg : string)
  | KeyError (msg : string)
  | SQLAlchemyError (msg : string)
  | HTTPException (status_code : Z) (detail : string).

Definition exn_str (e : exn) : string :=
  match e with
  | Exception m | ValueError m | TypeError m
  | AttributeError m | KeyError m | SQLAlchemyError m => m
  | HTTPException c d => pretty c +:+ ": " +:+ d
  end.

(** [d.get(k)] on the items of a dict. *)
Fixpoint dict_get (k : string) (items : list (string * json)) : option json :=
  match items with
  | [] => None
  | (k', v) :: rest => if decide (k' = k) then Some v else dict_get k rest
  end.

(** [v == s] for a [str] [s]. *)
Definition json_is_str (s : string) (v : json) : bool :=
  match v with
  | JStr t => bool_decide (t = s)
  | _ => false
  end.

(** [needle in hay] on [str]: substring search. *)
Fixpoint str_contains (needle hay : string) : bool :=
  String.prefix needle hay ||
  match hay with
  | EmptyString => false
  | String _ rest => str_contains needle rest
  end.

(** [field in v]: key lookup on a dict, element search on a list,
    substring search on a str, [TypeError] on the rest. *)
Definition py_in (field : string) (v : json) : exn + bool :=
  match v with
  | JObj items => inr (bool_decide (is_Some (dict_get field items)))
  | JArr xs => inr (existsb (json_is_str field) xs)
  | JStr s => inr (str_contains field s)
  | JNull => inl (TypeError "argument of type 'NoneType' is not iterable")
  | JBool _ => inl (TypeError "argument of type 'bool' is not iterable")
  | JInt _ => inl (TypeError "argument of type 'int' is not iterable")
  | JFloat _ => inl (TypeError "argument of type 'float' is not iterable")
  end.

(** [v[field]] for a [str] subscript. *)
Definition py_getitem (field : string) (v : json) : exn + json :=
  match v with
  | JObj items =>
      match dict_get field items with
      | Some x => inr x
      | None => inl (KeyError ("'" +:+ field +:+ "'"))
      end
  | JArr _ => inl (TypeError "list indices must be integers or slices, not str")
  | JStr _ => inl (TypeError "string indices must be integers, not 'str'")
  | JNull => inl (TypeError "'NoneType' object is not subscriptable")
  | JBool _ => inl (TypeError "'bool' object is not subscriptable")
  | JInt _ => inl (TypeError "'int' object is not subscriptable")
  | JFloat _ => inl (TypeError "'float' object is not subscriptable")
  end.

(** Truth value of a JSON value ([if verdict_json:]). *)
Definition py_truthy (v : json) : bool :=
  match v with
  | JNull => false
  | JBool b => b
  | JInt n => negb (n =? 0)%Z
  | JFloat q => negb (Qeq_bool q 0)
  | JStr s => negb (bool_decide (s = ""))
  | JArr xs => negb (bool_decide (xs = []))
  | JObj items => negb (bool_decide (items = []))
  end.

(** [sep.join(parts)]. *)
Fixpoint str_join (sep : string) (parts : list string) : string :=
  match parts with
  | [] => ""
  | [p] => p
  | p :: rest => p +:+ sep +:+ str_join sep rest
  end.

(** [s[:n]]. *)
Definition str_take (n : nat) (s : string) : string := String.substring 0 n s.

(** The line feed and the double quote of the f-strings. *)
Definition NL : string := String (Ascii.ascii_of_nat 10) EmptyString.
Definition DQ : string := String (Ascii.ascii_of_nat 34) EmptyString.
Definition quoted (s : string) : string := DQ +:+ s +:+ DQ.

(** A triple-quoted f-string, line by line. *)
Definition text (lines : list string) : string := str_join NL lines.

(** [x or 'N/A'] on an optional str. *)
Definition or_na (x : option string) : string :=
  match x with
  | Some s => if decide (s = "") then "N/A" else s
  | None => "N/A"
  end.

(** ** The tables ([app/models]) *)

(** Columns that no modelled operation reads (surrogate ids of rows other
    than cases, file paths, upload and creation times of rows other than
    cases) are left out. *)

Record Case := mkCase {
  case_number : string;
  title : string;
  description : option string;
  case_type : string;
  jurisdiction : string;
  created_by : UUID;
  status : string;
  current_round : Z;
  max_rounds : Z;
  created_at : datetime;
  updated_at : option datetime;
  finalized_at : option datetime
}.

Record Document := mkDocument {
  doc_case_id : UUID;
  doc_side : string;
  doc_title : string;
  file_type : string;
  full_text : option string;
  doc_status : string
}.

Record Argument := mkArgument {
  arg_case_id : UUID;
  arg_round : Z;
  arg_side : string;
  argument_text : string;
  submitted_by : UUID
}.

Record Verdict := mkVerdict {
  v_case_id : UUID;
  v_round : Z;
  verdict_json : json;
  model_used : string;
  tokens_used : option Z
}.

Record DB := mkDB {
  cases : gmap UUID Case;
  documents : list Document;
  arguments : list Argument;
  verdicts : list Verdict
}.

Definition empty_db : DB := mkDB ∅ [] [] [].

(** Writes.  An UPDATE of a case row also fires the column's
    [onupdate=datetime.utcnow]. *)
Definition put_case (id : UUID) (c : Case) (db : DB) : DB :=
  mkDB (<[id := c]> (cases db)) (documents db) (arguments db) (verdicts db).

Definition add_argument (a : Argument) (db : DB) : DB :=
  mkDB (cases db) (documents db) (arguments db ++ [a]) (verdicts db).

Definition add_verdict (v : Verdict) (db : DB) : DB :=
  mkDB (cases db) (documents db) (arguments db) (verdicts db ++ [v]).

Definition set_progress (st : string) (r : Z) (now : datetime) (c : Case) : Case :=
  mkCase (case_number c) (title c) (description c) (case_type c)
         (jurisdiction c) (created_by c) st r (max_rounds c)
         (created_at c) (Some now) (finalized_at c).

Definition set_finalized (now : datetime) (c : Case) : Case :=
  mkCase (case_number c) (title c) (description c) (case_type c)
         (jurisdiction c) (created_by c) "finalized" (current_round c)
         (max_rounds c) (created_at c) (Some now) (Some now).

(** Queries. *)
Definition ready_documents (case_id : UUID) (db : DB) : list Document :=
  filter (λ d, doc_case_id d = case_id ∧ doc_status d = "ready") (documents db).

Definition docs_of_side (side : string) (docs : list Document) : list Document :=
  filter (λ d, doc_side d = side) docs.

Definition round_arguments (case_id : UUID) (r : Z) (db : DB) : list Argument :=
  filter (λ a, arg_case_id a = case_id ∧ arg_round a = r) (arguments db).

Definition args_of_side (side : string) (args : list Argument) : list Argument :=
  filter (λ a, arg_side a = side) args.

Definition find_argument (case_id : UUID) (r : Z) (side : string) (db : DB)
  : option Argument :=
  head (filter (λ a, arg_case_id a = case_id ∧ arg_round a = r ∧ arg_side a = side)
               (arguments db)).

Definition case_verdicts (case_id : UUID) (db : DB) : list Verdict :=
  filter (λ v, v_case_id v = case_id) (verdicts db).

Definition find_verdict (case_id : UUID) (r : Z) (db : DB) : option Verdict :=
  head (filter (λ v, v_case_id v = case_id ∧ v_round v = r) (verdicts db)).

(** ** The OpenAI client and the world *)

(** A chat completion: [choices[0].message.content] and
    [usage.total_tokens] when the reply has a [usage]. *)
Record Completion := mkCompletion {
  content : string;
  total_tokens : option Z
}.

Record Request := mkRequest {
  req_system : string;
  req_user : string;
  req_max_tokens : Z
}.

(** What one call of an operation meets outside the store: the clock,
    the reply of the model to any request (or the exception the client
    raises), and whether the commit of a new verdict row goes through
    ([Some msg]: it raises).  The other commits are taken to succeed. *)
Record Env := mkEnv {
  now : datetime;
  oracle : Request → exn + Completion;
  verdict_commit_error : option string
}.

Record World := mkWorld {
  db : DB;
  oracle_calls : list Request
}.

(** ** State and exceptions *)

Definition M (A : Type) : Type := World → World * (exn + A).

Definition ret {A} (a : A) : M A := λ w, (w, inr a).
Definition raise {A} (e : exn) : M A := λ w, (w, inl e).
Definition bind {A B} (m : M A) (k : A → M B) : M B :=
  λ w, match m w with
       | (w', inl e) => (w', inl e)
       | (w', inr a) => k a w'
       end.
Definition try_except {A} (m : M A) (handler : exn → M A) : M A :=
  λ w, match m w with
       | (w', inl e) => handler e w'
       | (w', inr a) => (w', inr a)
       end.
Definition lift {A} (r : exn + A) : M A :=
  match r with inl e => raise e | inr a => ret a end.
Definition query {A} (q : DB → A) : M A := λ w, (w, inr (q (db w))).
Definition commit (f : DB → DB) : M unit :=
  λ w, (mkWorld (f (db w)) (oracle_calls w), inr tt).
Definition chat_completions_create (env : Env) (rq : Request) : M Completion :=
  λ w, (mkWorld (db w) (oracle_calls w ++ [rq]), oracle env rq).

#[global] Instance M_ret : MRet M := @ret.
#[global] Instance M_bind : MBind M := λ A B k m, bind m k.

Definition commit_verdict (env : Env) (v : Verdict) : M unit :=
  match verdict_commit_error env with
  | Some msg => raise (SQLAlchemyError msg)
  | None => commit (add_verdict v)
  end.

(** ** Prompts and response checks *)

(** The two library functions the services lean on. *)
Class Builtins := {
  (** [json.loads]: the parsed value, or the text of the
      [JSONDecodeError]. *)
  json_loads : string → string + json;
  (** [str] of a float, a list or a dict, as an f-string prints them. *)
  py_repr : json → string
}.

Section Services.

Context `{Builtins}.

(** An f-string field holding a JSON value. *)
Definition fmt (v : json) : string :=
  match v with
  | JStr s => s
  | JInt n => pretty n
  | JBool true => "True"
  | JBool false => "False"
  | JNull => "None"
  | _ => py_repr v
  end.

Definition required_fields : list string :=
  ["summary"; "winner"; "confidence_score"; "issues"; "final_decision";
   "key_evidence_cited"].

(** [[field for field in required_fields if field not in verdict_dict]] *)
Fixpoint missing_fields (fields : list string) (verdict_dict : json)
  : exn + list string :=
  match fields with
  | [] => inr []
  | f :: rest =>
      match py_in f verdict_dict with
      | inl e => inl e
      | inr present =>
          match missing_fields rest verdict_dict with
          | inl e => inl e
          | inr ms => inr (if present then ms else f :: ms)
          end
      end
  end.

(** [VerdictOrchestrator.parse_verdict_json] *)
Definition parse_verdict_json (json_string : string) : exn + json :=
  match json_loads json_string with
  | inl msg => inl (Exception ("Invalid JSON in verdict response: " +:+ msg))
  | inr verdict_dict =>
      match missing_fields required_fields verdict_dict with
      | inl e => inl e
      | inr (f :: fs) =>
          inl (Exception ("Missing required fields in verdict: "
                          +:+ str_join ", " (f :: fs)))
      | inr [] =>
          match py_getitem "winner" verdict_dict with
          | inl e => inl e
          | inr w =>
              if json_is_str "A" w || json_is_str "B" w
                 || json_is_str "undecided" w
              then inr verdict_dict
              else inl (Exception ("Invalid winner value: " +:+ fmt w))
          end
      end
  end.

(** The JSON the prompts ask for; [reasoning_hint], [summary_hint],
    [decision_hint] and [evidence_hint] are where the two prompts
    differ. *)
Definition format_lines (summary_hint reasoning_hint decision_hint evidence_hint
                         : string) : list string :=
  [ "**IMPORTANT:** You must respond with ONLY a valid JSON object in the following format:";
    "";
    "{";
    "    " +:+ quoted "summary" +:+ ": " +:+ quoted summary_hint +:+ ",";
    "    " +:+ quoted "winner" +:+ ": " +:+ quoted "A" +:+ " or " +:+ quoted "B"
           +:+ " or " +:+ quoted "undecided" +:+ ",";
    "    " +:+ quoted "confidence_score" +:+ ": 0.85,";
    "    " +:+ quoted "issues" +:+ ": [";
    "        {";
    "            " +:+ quoted "issue" +:+ ": "
           +:+ quoted "Question or issue being decided" +:+ ",";
    "            " +:+ quoted "finding" +:+ ": "
           +:+ quoted "Your finding on this issue" +:+ ",";
    "            " +:+ quoted "reasoning" +:+ ": " +:+ quoted reasoning_hint;
    "        }";
    "    ],";
    "    " +:+ quoted "final_decision" +:+ ": " +:+ quoted decision_hint +:+ ",";
    "    " +:+ quoted "key_evidence_cited" +:+ ": [" +:+ quoted evidence_hint +:+ "]";
    "}";
    "";
    "Provide your verdict as a JSON object only:" ].

Definition case_lines (case : Case) : list string :=
  [ "**CASE INFORMATION:**";
    "- Title: " +:+ title case;
    "- Case Number: " +:+ case_number case;
    "- Type: " +:+ case_type case;
    "- Jurisdiction: " +:+ jurisdiction case;
    "- Description: " +:+ or_na (description case) ].

Record Context := mkContext {
  ctx_case : Case;
  side_a_docs : list Document;
  side_b_docs : list Document;
  ctx_arguments : list Argument;
  ctx_previous_verdict : option Verdict
}.

(** Round 0: [doc.full_text[:1000]], with no guard on a null text. *)
Definition doc_summary_1000 (doc : Document) : exn + string :=
  match full_text doc with
  | None => inl (TypeError "'NoneType' object is not subscriptable")
  | Some t =>
      inr ("**" +:+ doc_title doc +:+ "** (" +:+ file_type doc +:+ ")" +:+ NL
           +:+ str_take 1000 t)
  end.

Fixpoint summaries_1000 (docs : list Document) : exn + list string :=
  match docs with
  | [] => inr []
  | d :: rest =>
      match doc_summary_1000 d with
      | inl e => inl e
      | inr s =>
          match summaries_1000 rest with
          | inl e => inl e
          | inr ss => inr (s :: ss)
          end
      end
  end.

(** [VerdictOrchestrator.build_verdict_prompt] *)
Definition build_verdict_prompt (context : Context) (round_number : Z)
  : exn + string :=
  match summaries_1000 (side_a_docs context) with
  | inl e => inl e
  | inr sa =>
      match summaries_1000 (side_b_docs context) with
      | inl e => inl e
      | inr sb =>
          inr (text (
            [ "You are an AI judge presiding over a mock trial case."; "" ]
            ++ case_lines (ctx_case context) ++
            [ "";
              "**CURRENT ROUND:** " +:+ pretty round_number
                +:+ " (Initial Verdict - no arguments yet)";
              "";
              "Your task is to analyze the evidence submitted by both sides and deliver an initial verdict.";
              "";
              "**SIDE A EVIDENCE:**";
              str_join (NL +:+ NL) sa;
              "";
              "**SIDE B EVIDENCE:**";
              str_join (NL +:+ NL) sb;
              "";
              "**INSTRUCTIONS:**";
              "1. Carefully review all evidence from both sides";
              "2. Identify the key legal issues";
              "3. Analyze each issue based on the evidence presented";
              "4. Determine which side has the stronger case";
              "5. Provide reasoning for your decision";
              "6. Assign a confidence score (0.0 to 1.0)";
              "" ]
            ++ format_lines
                 "Brief 2-3 sentence summary of the case"
                 "Detailed reasoning with evidence citations"
                 "Your final verdict with reasoning (3-5 sentences)"
                 "Document titles that were most important"))
      end
  end.

(** Argument rounds: [(doc.full_text or '')[:800]]. *)
Definition doc_excerpt (doc : Document) : string :=
  str_take 800 (default "" (full_text doc)).

Definition doc_summary_800 (doc : Document) : string :=
  "**" +:+ doc_title doc +:+ "** (" +:+ file_type doc +:+ ")" +:+ NL
  +:+ doc_excerpt doc.

(** [f"**Argument {i+1}:**\n{arg.argument_text}"] over [enumerate(args)]. *)
Fixpoint argument_summaries (i : Z) (args : list Argument) : list string :=
  match args with
  | [] => []
  | arg :: rest =>
      ("**Argument " +:+ pretty (i + 1) +:+ ":**" +:+ NL +:+ argument_text arg)
      :: argument_summaries (i + 1) rest
  end.

Definition arg_text (args : list Argument) : string :=
  match args with
  | [] => "No arguments submitted"
  | _ => str_join (NL +:+ NL) (argument_summaries 0 args)
  end.

Definition get_or_na (k : string) (items : list (string * json)) : string :=
  match dict_get k items with
  | Some v => fmt v
  | None => "N/A"
  end.

Definition no_attribute_get (type_name : string) : exn :=
  AttributeError ("'" +:+ type_name +:+ "' object has no attribute 'get'").

(** The summary of the previous verdict; [vj.get] exists on a dict only. *)
Definition prev_verdict_summary (previous_verdict : option Verdict) : exn + string :=
  match previous_verdict with
  | None => inr "N/A"
  | Some pv =>
      if py_truthy (verdict_json pv) then
        match verdict_json pv with
        | JObj vj =>
            inr (text
              [ "";
                "**Previous Verdict (Round " +:+ pretty (v_round pv) +:+ "):**";
                "- Winner: " +:+ get_or_na "winner" vj;
                "- Confidence: " +:+ get_or_na "confidence_score" vj;
                "- Summary: " +:+ get_or_na "summary" vj;
                "- Decision: " +:+ get_or_na "final_decision" vj;
                "" ])
        | JArr _ => inl (no_attribute_get "list")
        | JStr _ => inl (no_attribute_get "str")
        | JInt _ => inl (no_attribute_get "int")
        | JFloat _ => inl (no_attribute_get "float")
        | JBool _ => inl (no_attribute_get "bool")
        | JNull => inl (no_attribute_get "NoneType")
        end
      else inr "N/A"
  end.

(** [ArgumentOrchestrator.build_verdict_with_arguments_prompt] *)
Definition build_verdict_with_arguments_prompt
    (case : Case) (side_a_docs side_b_docs : list Document)
    (side_a_args side_b_args : list Argument)
    (previous_verdict : option Verdict) (round_number : Z) : exn + string :=
  let side_a_doc_summary := str_join (NL +:+ NL) (doc_summary_800 <$> side_a_docs) in
  let side_b_doc_summary := str_join (NL +:+ NL) (doc_summary_800 <$> side_b_docs) in
  let side_a_arg_text := arg_text side_a_args in
  let side_b_arg_text := arg_text side_b_args in
  match prev_verdict_summary previous_verdict with
  | inl e => inl e
  | inr prev =>
      inr (text (
        [ "You are an AI judge presiding over a mock trial case. This is Round "
            +:+ pretty round_number +:+ " of arguments.";
          "" ]
        ++ case_lines case ++
        [ "";
          "**CURRENT ROUND:** " +:+ pretty round_number;
          "";
          prev;
          "";
          "**SIDE A EVIDENCE:**";
          side_a_doc_summary;
          "";
          "**SIDE A ARGUMENTS (Round " +:+ pretty round_number +:+ "):**";
          side_a_arg_text;
          "";
          "**SIDE B EVIDENCE:**";
          side_b_doc_summary;
          "";
          "**SIDE B ARGUMENTS (Round " +:+ pretty round_number +:+ "):**";
          side_b_arg_text;
          "";
          "**INSTRUCTIONS:**";
          "1. Review the previous verdict and the new arguments from both sides";
          "2. Consider how the arguments address or challenge the previous findings";
          "3. Re-evaluate the evidence in light of the new arguments";
          "4. Determine if the arguments change your assessment";
          "5. Update your verdict accordingly";
          "6. Explain what impact (if any) the arguments had on your decision";
          "" ]
        ++ format_lines
             "Brief 2-3 sentence summary of how this round affected the case"
             "Detailed reasoning with evidence and argument citations"
             "Your updated verdict with reasoning (3-5 sentences)"
             "Document and argument references that were most important"))
  end.

(** ** VerdictOrchestrator *)

Definition case_not_found (case_id : UUID) : exn :=
  Exception ("Case not found: " +:+ case_id).

(** [VerdictOrchestrator.fetch_case_context] *)
Definition fetch_case_context (case_id : UUID) : M Context :=
  row ← query (λ d, cases d !! case_id);
  match row with
  | None => raise (case_not_found case_id)
  | Some case =>
      docs ← query (ready_documents case_id);
      mret (mkContext case (docs_of_side "A" docs) (docs_of_side "B" docs) [] None)
  end.

(** [VerdictOrchestrator.validate_documents] *)
Definition validate_documents (context : Context) : exn + unit :=
  match side_a_docs context with
  | [] => inl (ValueError "Side A has not submitted any documents")
  | _ =>
      match side_b_docs context with
      | [] => inl (ValueError "Side B has not submitted any documents")
      | _ => inr tt
      end
  end.

Definition judge_of_evidence : string :=
  "You are an experienced AI judge delivering fair and reasoned verdicts based on evidence. Always respond with valid JSON only.".

Definition judge_of_arguments : string :=
  "You are an experienced AI judge delivering fair and reasoned verdicts based on evidence and arguments. Always respond with valid JSON only.".

Definition failed_to_generate (e : exn) : exn :=
  Exception ("Failed to generate verdict: " +:+ exn_str e).

(** [VerdictOrchestrator.generate_initial_verdict] *)
Definition generate_initial_verdict (env : Env) (case_id : UUID) : M Verdict :=
  existing_verdict ← query (find_verdict case_id 0);
  match existing_verdict with
  | Some _ => raise (Exception "Round 0 verdict already exists for this case")
  | None =>
      context ← fetch_case_context case_id;
      lift (validate_documents context);;
      prompt ← lift (build_verdict_prompt context 0);
      try_except
        (response ← chat_completions_create env
                      (mkRequest judge_of_evidence prompt 2000);
         verdict_dict ← lift (parse_verdict_json (content response));
         let verdict := mkVerdict case_id 0 verdict_dict "gpt-4o-mini"
                                  (total_tokens response) in
         commit_verdict env verdict;;
         commit (put_case case_id
                   (set_progress "in_progress" 1 (now env) (ctx_case context)));;
         mret verdict)
        (λ e, raise (failed_to_generate e))
  end.

(** [VerdictOrchestrator.get_verdict_by_round] *)
Definition get_verdict_by_round (case_id : UUID) (round_number : Z)
  : M (option Verdict) :=
  query (find_verdict case_id round_number).

(** ** ArgumentOrchestrator *)

(** [ArgumentOrchestrator.generate_verdict_with_arguments] *)
Definition generate_verdict_with_arguments (env : Env) (case_id : UUID)
    (round_number : Z) : M Verdict :=
  row ← query (λ d, cases d !! case_id);
  match row with
  | None => raise (case_not_found case_id)
  | Some case =>
      docs ← query (ready_documents case_id);
      args ← query (round_arguments case_id round_number);
      previous_verdict ← query (find_verdict case_id (round_number - 1));
      prompt ← lift (build_verdict_with_arguments_prompt case
                       (docs_of_side "A" docs) (docs_of_side "B" docs)
                       (args_of_side "A" args) (args_of_side "B" args)
                       previous_verdict round_number);
      try_except
        (response ← chat_completions_create env
                      (mkRequest judge_of_arguments prompt 2500);
         verdict_dict ←
           match json_loads (content response) with
           | inl msg => raise (ValueError msg)
           | inr v => mret v
           end;
         missing ← lift (missing_fields required_fields verdict_dict);
         match missing with
         | _ :: _ =>
             raise (Exception ("Missing required fields in verdict: "
                               +:+ str_join ", " missing))
         | [] =>
             let verdict := mkVerdict case_id round_number verdict_dict
                                      "gpt-4o-mini" (total_tokens response) in
             commit_verdict env verdict;;
             mret verdict
         end)
        (λ e, raise (failed_to_generate e))
  end.

Record SubmitResult := mkSubmitResult {
  res_argument : Argument;
  res_verdict : option Verdict;
  waiting_for_other_side : bool
}.

(** [ArgumentOrchestrator.submit_argument] *)
Definition submit_argument (env : Env) (case_id : UUID) (side : string)
    (text_ : string) (user_id : UUID) : M SubmitResult :=
  row ← query (λ d, cases d !! case_id);
  match row with
  | None => raise (case_not_found case_id)
  | Some case =>
      if decide (status case = "finalized") then
        raise (Exception "Cannot submit arguments to a finalized case")
      else if decide (status case = "draft") then
        raise (Exception "Case must have an initial verdict before arguments can be submitted")
      else if decide (current_round case >= max_rounds case) then
        raise (Exception ("Maximum rounds (" +:+ pretty (max_rounds case)
                          +:+ ") already reached. Case ready for finalization."))
      else
        let r := current_round case in
        existing_arg ← query (find_argument case_id r side);
        match existing_arg with
        | Some _ =>
            raise (Exception ("Side " +:+ side
                              +:+ " has already submitted an argument for round "
                              +:+ pretty r))
        | None =>
            let argument := mkArgument case_id r side text_ user_id in
            commit (add_argument argument);;
            side_a_arg ← query (find_argument case_id r "A");
            side_b_arg ← query (find_argument case_id r "B");
            verdict ←
              (if bool_decide (is_Some side_a_arg ∧ is_Some side_b_arg) then
                 try_except
                   (v ← generate_verdict_with_arguments env case_id r;
                    commit (put_case case_id
                              (set_progress (status case) (r + 1) (now env) case));;
                    mret (Some v))
                   (λ e, raise (Exception
                      ("Failed to generate verdict after arguments: "
                       +:+ exn_str e)))
               else mret None);
            mret (mkSubmitResult argument verdict
                    (bool_decide (verdict = None)))
        end
  end.

(** ** CaseService and the finalize endpoint *)

Record CaseCreate := mkCaseCreate {
  new_title : string;
  new_description : option string;
  new_case_type : string;
  new_jurisdiction : string
}.

(** [CaseUpdate] after [model_dump(exclude_unset=True)]: [None] is a
    field the request left out, [Some None] a field sent as [null]. *)
Record CaseUpdate := mkCaseUpdate {
  upd_title : option (option string);
  upd_description : option (option string);
  upd_case_type : option (option string);
  upd_jurisdiction : option (option string);
  upd_status : option (option string)
}.

(** [case_number = Column(String(50), unique=True, ...)]: some row of
    the table carries the number. *)
Definition number_taken (number : string) (d : DB) : Prop :=
  map_Exists (λ _ c, case_number c = number) (cases d).

(** [CaseService.create_case].  The primary key and the case number come
    from [uuid4()] (the number is six hexadecimal digits of one, drawn
    once); the INSERT fails on a key that is taken and on a number that
    is taken, and nothing is written then. *)
Definition create_case (env : Env) (id : UUID) (number : string)
    (case_data : CaseCreate) (user_id : UUID) : M Case :=
  taken ← query (λ d, cases d !! id);
  match taken with
  | Some _ => raise (SQLAlchemyError "duplicate key value violates unique constraint")
  | None =>
      in_use ← query (λ d, bool_decide (number_taken number d));
      if in_use : bool then
        raise (SQLAlchemyError "duplicate key value violates unique constraint")
      else
        let case := mkCase number (new_title case_data) (new_description case_data)
                      (new_case_type case_data) (new_jurisdiction case_data)
                      user_id "draft" 0 5 (now env) (Some (now env)) None in
        commit (put_case id case);;
        mret case
  end.

(** [CaseService.get_case_by_id] *)
Definition get_case_by_id (case_id user_id : UUID) (d : DB) : option Case :=
  match cases d !! case_id with
  | Some c => if decide (created_by c = user_id) then Some c else None
  | None => None
  end.

(** [setattr] on a column that is [nullable=False]. *)
Definition set_required (v : option (option string)) (old : string)
  : option string :=
  match v with
  | None => Some old
  | Some (Some s) => Some s
  | Some None => None
  end.

Definition set_nullable (v : option (option string)) (old : option string)
  : option string :=
  match v with
  | None => old
  | Some s => s
  end.

(** The row after the [setattr] loop; [None] when a required column was
    set to null, which the UPDATE rejects. *)
Definition apply_update (case_data : CaseUpdate) (t : datetime) (c : Case)
  : option Case :=
  match set_required (upd_title case_data) (title c),
        set_required (upd_case_type case_data) (case_type c),
        set_required (upd_jurisdiction case_data) (jurisdiction c),
        set_required (upd_status case_data) (status c) with
  | Some ti, Some ty, Some ju, Some st =>
      Some (mkCase (case_number c) ti
              (set_nullable (upd_description case_data) (description c))
              ty ju (created_by c) st (current_round c) (max_rounds c)
              (created_at c) (Some t) (finalized_at c))
  | _, _, _, _ => None
  end.

(** [CaseService.update_case] *)
Definition update_case (env : Env) (case_id : UUID) (case_data : CaseUpdate)
    (user_id : UUID) : M (option Case) :=
  found ← query (get_case_by_id case_id user_id);
  match found with
  | None => mret None
  | Some case =>
      match apply_update case_data (now env) case with
      | None => raise (SQLAlchemyError "null value in column violates not-null constraint")
      | Some case' => commit (put_case case_id case');; mret (Some case')
      end
  end.

(** The cascade of [db.delete(case)]. *)
Definition drop_case (case_id : UUID) (d : DB) : DB :=
  mkDB (delete case_id (cases d))
       (filter (λ x, doc_case_id x ≠ case_id) (documents d))
       (filter (λ x, arg_case_id x ≠ case_id) (arguments d))
       (filter (λ x, v_case_id x ≠ case_id) (verdicts d)).

(** [CaseService.delete_case] *)
Definition delete_case (case_id user_id : UUID) : M bool :=
  found ← query (get_case_by_id case_id user_id);
  match found with
  | None => mret false
  | Some _ => commit (drop_case case_id);; mret true
  end.

(** [finalize_case] of [app/api/cases.py] *)
Definition finalize_case (env : Env) (case_id user_id : UUID) : M Case :=
  row ← query (λ d, cases d !! case_id);
  match row with
  | None => raise (HTTPException 404 "Case not found")
  | Some case =>
      if decide (created_by case ≠ user_id) then
        raise (HTTPException 403 "Access denied")
      else if decide (status case = "finalized") then
        raise (HTTPException 409 "Case is already finalized")
      else
        verdict ← query (find_verdict case_id 0);
        match verdict with
        | None => raise (HTTPException 422
                           "Cannot finalize case without an initial verdict")
        | Some _ =>
            let case' := set_finalized (now env) case in
            commit (put_case case_id case');;
            mret case'
        end
  end.

(** ** Histories *)

(** One request to the service, or one change of the documents table by
    the ingestion side (upload, extraction, deletion). *)
Inductive op : Type :=
  | CreateCase (id : UUID) (number : string) (data : CaseCreate) (user : UUID)
  | UpdateCase (id : UUID) (data : CaseUpdate) (user : UUID)
  | DeleteCase (id user : UUID)
  | GenerateInitialVerdict (id : UUID)
  | SubmitArgument (id : UUID) (side text_ : string) (user : UUID)
  | FinalizeCase (id user : UUID)
  | SetDocuments (docs : list Document).

Definition set_documents (docs : list Document) (d : DB) : DB :=
  mkDB (cases d) docs (arguments d) (verdicts d).

(** The world after a request; its answer is dropped. *)
Definition run_op (env : Env) (o : op) (w : World) : World :=
  match o with
  | CreateCase id number data user => (create_case env id number data user w).1
  | UpdateCase id data user => (update_case env id data user w).1
  | DeleteCase id user => (delete_case id user w).1
  | GenerateInitialVerdict id => (generate_initial_verdict env id w).1
  | SubmitArgument id side t user => (submit_argument env id side t user w).1
  | FinalizeCase id user => (finalize_case env id user w).1
  | SetDocuments docs => mkWorld (set_documents docs (db w)) (oracle_calls w)
  end.

Definition empty_world : World := mkWorld empty_db [].

(** A history gives every request the environment it ran in. *)
Definition run (h : list (Env * op)) : World :=
  foldl (λ w eo, run_op eo.1 eo.2 w) empty_world h.

(** Does the request write the status column through [update_case]? *)
Definition sets_status (o : op) : bool :=
  match o with
  | UpdateCase _ data _ => bool_decide (is_Some (upd_status data))
  | _ => false
  end.

End Services.

(** ** The specification's wording *)

Section Specification.

Context `{Builtins}.

(** "A second creation attempt for the same (case, round) returns the
    first verdict rather than erroring", for round 0. *)
Definition returns_existing_verdict (env : Env) (case_id : UUID) (w : World)
  : Prop :=
  ∀ v0, find_verdict case_id 0 (db w) = Some v0 →
        (generate_initial_verdict env case_id w).2 = inr v0.

(** "The number of persisted Verdicts for that case equals current_round
    if status != draft, else 0", with the bounds on the counter. *)
Definition counts_as_specified (d : DB) : Prop :=
  ∀ id c, cases d !! id = Some c →
    (0 ≤ current_round c ≤ max_rounds c)%Z
    ∧ Z.of_nat (length (case_verdicts id d))
      = (if decide (status c = "draft") then 0 else current_round c).

(** "Validation failures (parse failure, missing field, winner not in
    {A,B,undecided}, confidence_score outside [0,1])". *)
Definition in_unit_interval (v : json) : bool :=
  match v with
  | JInt n => (0 <=? n)%Z && (n <=? 1)%Z
  | JFloat q => Qle_bool 0 q && Qle_bool q 1
  | _ => false
  end.

Definition invalid_as_specified (s : string) : bool :=
  match json_loads s with
  | inl _ => true
  | inr (JObj items) =>
      negb (forallb (λ f, bool_decide (is_Some (dict_get f items)))
                    required_fields)
      || negb (match dict_get "winner" items with
               | Some w => json_is_str "A" w || json_is_str "B" w
                           || json_is_str "undecided" w
               | None => false
               end)
      || negb (match dict_get "confidence_score" items with
               | Some x => in_unit_interval x
               | None => false
               end)
  | inr _ => true
  end.

(** "Fails with the validation error whenever the corresponding side has
    no ready evidence item", for side A. *)
Definition side_a_error_as_specified (env : Env) (case_id : UUID) (w : World)
  : Prop :=
  docs_of_side "A" (ready_documents case_id (db w)) = [] →
  (generate_initial_verdict env case_id w).2
  = inl (ValueError "Side A has not submitted any documents").

(** "A retry of the trigger (not of argument submission) can be
    attempted without requiring re-submission of arguments": from the
    store that the failure left, some request brings the verdict of the
    round the case is in, and stores no further Argument. *)
Definition retry_as_specified (case_id : UUID) (w : World) : Prop :=
  ∃ env o c,
    cases (db w) !! case_id = Some c
    ∧ arguments (db (run_op env o w)) = arguments (db w)
    ∧ is_Some (find_verdict case_id (current_round c) (db (run_op env o w))).

End Specification.

(** ** Sample data *)

(** Three replies of the model and what [json.loads] makes of them. *)
Definition reply_text (winner confidence : string) : string :=
  "{" +:+ quoted "summary" +:+ ": " +:+ quoted "s" +:+ ", "
  +:+ quoted "winner" +:+ ": " +:+ quoted winner +:+ ", "
  +:+ quoted "confidence_score" +:+ ": " +:+ confidence +:+ ", "
  +:+ quoted "issues" +:+ ": [], "
  +:+ quoted "final_decision" +:+ ": " +:+ quoted "d" +:+ ", "
  +:+ quoted "key_evidence_cited" +:+ ": []}".

Definition reply_json (winner : string) (confidence : Z) : json :=
  JObj [ ("summary", JStr "s"); ("winner", JStr winner);
         ("confidence_score", JInt confidence); ("issues", JArr []);
         ("final_decision", JStr "d"); ("key_evidence_cited", JArr []) ].

(** [json.loads] on the sample replies; every other text the samples
    send it is not JSON. *)
Definition sample_loads (s : string) : string + json :=
  if decide (s = reply_text "A" "1") then inr (reply_json "A" 1)
  else if decide (s = reply_text "A" "5") then inr (reply_json "A" 5)
  else if decide (s = reply_text "C" "1") then inr (reply_json "C" 1)
  else inl "Expecting value: line 1 column 1 (char 0)".

Definition sample_builtins : Builtins :=
  {| json_loads := sample_loads; py_repr := λ _, "[]" |}.

Definition answers (s : string) (t : datetime) : Env :=
  mkEnv t (λ _, inr (mkCompletion s (Some 300))) None.

Definition good_env : Env := answers (reply_text "A" "1") 7.
Definition down_env : Env := mkEnv 7 (λ _, inl (Exception "API Error")) None.

Definition contract : Document :=
  mkDocument "c1" "A" "Contract" "pdf" (Some "The parties agree.") "ready".
Definition email : Document :=
  mkDocument "c1" "B" "Email" "txt" None "ready".
Definition scan : Document :=
  mkDocument "c1" "B" "Scan" "pdf" (Some "Received.") "ready".

Definition new_case : CaseCreate := mkCaseCreate "T" None "civil" "India".

Definition patch_status (st : string) : CaseUpdate :=
  mkCaseUpdate None None None None (Some (Some st)).

(** A case with evidence on both sides and its round-0 verdict. *)
Definition opened : list (Env * op) :=
  [ (good_env, CreateCase "c1" "CAS-2025-ABCDEF" new_case "u1");
    (good_env, SetDocuments [contract; scan]);
    (good_env, GenerateInitialVerdict "c1") ].

Definition w_opened : World := @run sample_builtins opened.

Definition c_new : Case :=
  mkCase "CAS-2025-ABCDEF" "T" None "civil" "India" "u1" "draft" 0 5 7 (Some 7) None.

Definition c_opened : Case := set_progress "in_progress" 1 7 c_new.

Definition v_opened : Verdict :=
  mkVerdict "c1" 0 (reply_json "A" 1) "gpt-4o-mini" (Some 300).

(** The case alone, before any evidence. *)
Definition w_new : World :=
  @run sample_builtins [ (good_env, CreateCase "c1" "CAS-2025-ABCDEF" new_case "u1") ].

(** The case with its evidence, before the round-0 verdict. *)
Definition w_evidence : World :=
  @run sample_builtins
    [ (good_env, CreateCase "c1" "CAS-2025-ABCDEF" new_case "u1");
      (good_env, SetDocuments [contract; scan]) ].

Definition plea : string := "The contract was signed.".
Definition reply : string := "The signature is forged.".

(** Round 1 with the argument of side A in. *)
Definition w_waiting : World :=
  @run sample_builtins (opened ++ [ (good_env, SubmitArgument "c1" "A" plea "u1") ]).

(** The round-0 verdict is in and side A's only document is deleted. *)
Definition w_withdrawn : World :=
  @run sample_builtins (opened ++ [ (good_env, SetDocuments [scan]) ]).

(** The case is set back to draft through the case update. *)
Definition redrafted : list (Env * op) :=
  opened ++ [ (good_env, UpdateCase "c1" (patch_status "draft") "u1") ].

(** The case is finalized, then set to in_progress through the case
    update. *)
Definition reopened : list (Env * op) :=
  opened ++ [ (good_env, FinalizeCase "c1" "u1");
              (good_env, UpdateCase "c1" (patch_status "in_progress") "u1") ].


(** ** Properties *)

Definition has_argument (case_id : UUID) (r : Z) (side : string) (d : DB) : Prop :=
  ∃ a, a ∈ arguments d ∧ arg_case_id a = case_id ∧ arg_round a = r
       ∧ arg_side a = side.

Definition has_verdict (case_id : UUID) (r : Z) (d : DB) : Prop :=
  ∃ v, v ∈ verdicts d ∧ v_case_id v = case_id ∧ v_round v = r.

Ltac unfold_m :=
  unfold mbind, M_bind, mret, M_ret, bind, ret, raise, query, commit,
         try_except, lift in *.

Lemma head_filter_Some {A} (P : A → Prop) `{∀ x, Decision (P x)} (l : list A) :
  is_Some (head (filter P l)) ↔ ∃ x, x ∈ l ∧ P x.
Proof.
  split.
  - intros [x Hx]. exists x. apply head_Some_elem_of in Hx.
    apply list_elem_of_filter in Hx. tauto.
  - intros (x & Hin & HP).
    assert (Hf : x ∈ filter P l) by (apply list_elem_of_filter; done).
    destruct (filter P l) as [|y ys]; [by apply elem_of_nil in Hf | by eexists].
Qed.

Lemma head_filter_None {A} (P : A → Prop) `{∀ x, Decision (P x)} (l : list A) :
  head (filter P l) = None ↔ ∀ x, x ∈ l → ¬ P x.
Proof.
  rewrite eq_None_not_Some, head_filter_Some. split.
  - intros Hno x Hin HP. apply Hno. by exists x.
  - intros Hall (x & Hin & HP). by apply (Hall x).
Qed.

Lemma find_argument_Some case_id r side d :
  is_Some (find_argument case_id r side d) ↔ has_argument case_id r side d.
Proof. unfold find_argument, has_argument. by rewrite head_filter_Some. Qed.

Lemma find_argument_None case_id r side d :
  find_argument case_id r side d = None ↔ ¬ has_argument case_id r side d.
Proof. rewrite eq_None_not_Some. by rewrite find_argument_Some. Qed.

Lemma find_verdict_Some case_id r d :
  is_Some (find_verdict case_id r d) ↔ has_verdict case_id r d.
Proof. unfold find_verdict, has_verdict. by rewrite head_filter_Some. Qed.

Lemma find_verdict_None case_id r d :
  find_verdict case_id r d = None ↔ ¬ has_verdict case_id r d.
Proof. rewrite eq_None_not_Some. by rewrite find_verdict_Some. Qed.







Section Properties.

Context `{Builtins}.

#[local] Arguments missing_fields : simpl never.
#[local] Arguments build_verdict_prompt : simpl never.
#[local] Arguments build_verdict_with_arguments_prompt : simpl never.
#[local] Arguments parse_verdict_json : simpl never.
#[local] Arguments pretty : simpl never.

(** What [generate_verdict_with_arguments] leaves behind: nothing on an
    exception, one more verdict for the round it was asked for
    otherwise.  It never writes a case row. *)
Lemma generate_verdict_with_arguments_effect env case_id r w :
  let out := generate_verdict_with_arguments env case_id r w in
  (∃ e, out.2 = inl e ∧ db out.1 = db w)
  ∨ (∃ v, out.2 = inr v ∧ db out.1 = add_verdict v (db w)
          ∧ v_case_id v = case_id ∧ v_round v = r).
Proof.
  unfold generate_verdict_with_arguments, chat_completions_create, commit_verdict.
  unfold_m. simpl.
  destruct (cases (db w) !! case_id) as [c|]; simpl; [|by left; eexists].
  destruct (build_verdict_with_arguments_prompt _ _ _ _ _ _ _) as [e|p]; simpl;
    [by left; eexists|].
  destruct (oracle env _) as [e|resp]; simpl; [by left; eexists|].
  destruct (json_loads (content resp)) as [msg|vd]; simpl; [by left; eexists|].
  destruct (missing_fields required_fields vd) as [e|[|m ms]]; simpl;
    [by left; eexists| |by left; eexists].
  destruct (verdict_commit_error env); simpl; [by left; eexists|].
  right. eexists. done.
Qed.

(** The request log grows by at most the one request of the call. *)
Lemma generate_verdict_with_arguments_calls env case_id r w :
  let out := generate_verdict_with_arguments env case_id r w in
  oracle_calls out.1 = oracle_calls w
  ∨ ∃ rq, oracle_calls out.1 = oracle_calls w ++ [rq].
Proof.
  unfold generate_verdict_with_arguments, chat_completions_create, commit_verdict.
  unfold_m. simpl.
  destruct (cases (db w) !! case_id) as [c|]; simpl; [|by left].
  destruct (build_verdict_with_arguments_prompt _ _ _ _ _ _ _) as [e|p]; simpl;
    [by left|].
  right. eexists.
  destruct (oracle env _) as [e|resp]; simpl; [done|].
  destruct (json_loads (content resp)) as [msg|vd]; simpl; [done|].
  destruct (missing_fields required_fields vd) as [e|[|m ms]]; simpl; [done| |done].
  by destruct (verdict_commit_error env).
Qed.

Definition admitted (case_id : UUID) (side : string) (c : Case) (w : World) : Prop :=
  cases (db w) !! case_id = Some c
  ∧ status c ≠ "finalized" ∧ status c ≠ "draft"
  ∧ current_round c < max_rounds c
  ∧ ¬ has_argument case_id (current_round c) side (db w).

Definition both_sides_in (case_id : UUID) (r : Z) (d : DB) : Prop :=
  has_argument case_id r "A" d ∧ has_argument case_id r "B" d.

#[local] Instance both_sides_in_dec case_id r d : Decision (both_sides_in case_id r d).
Proof.
  refine (cast_if (decide (is_Some (find_argument case_id r "A" d)
                           ∧ is_Some (find_argument case_id r "B" d))));
    unfold both_sides_in; by rewrite <- !find_argument_Some.
Defined.

(** The world right after the argument row is committed. *)
Definition with_argument (a : Argument) (w : World) : World :=
  mkWorld (add_argument a (db w)) (oracle_calls w).

Definition round_advanced (env : Env) (case_id : UUID) (c : Case) (w : World)
  : World :=
  mkWorld (put_case case_id
             (set_progress (status c) (current_round c + 1) (now env) c) (db w))
          (oracle_calls w).

(** [submit_argument] past its gates, as one equation. *)
Lemma submit_argument_admitted env case_id side txt user w c :
  admitted case_id side c w →
  let r := current_round c in
  let a := mkArgument case_id r side txt user in
  let w1 := with_argument a w in
  submit_argument env case_id side txt user w =
    if decide (both_sides_in case_id r (db w1)) then
      match generate_verdict_with_arguments env case_id r w1 with
      | (w2, inl e) =>
          (w2, inl (Exception ("Failed to generate verdict after arguments: "
                               +:+ exn_str e)))
      | (w2, inr v) =>
          (round_advanced env case_id c w2, inr (mkSubmitResult a (Some v) false))
      end
    else (w1, inr (mkSubmitResult a None true)).
Proof.
  intros (Hc & Hfin & Hdraft & Hlt & Hnew) r a w1.
  apply find_argument_None in Hnew.
  unfold submit_argument. unfold_m. simpl. rewrite Hc.
  destruct (decide (status c = "finalized")); [done|].
  destruct (decide (status c = "draft")); [done|].
  destruct (decide (current_round c >= max_rounds c)); [lia|].
  rewrite Hnew. simpl. fold r a.
  change (mkWorld (add_argument a (db w)) (oracle_calls w)) with w1.
  change (add_argument a (db w)) with (db w1).
  destruct (decide (both_sides_in case_id r (db w1))) as [Hboth|Hboth].
  - rewrite bool_decide_eq_true_2
      by (destruct Hboth; split; by apply find_argument_Some).
    destruct (generate_verdict_with_arguments env case_id r w1) as [w2 [e|v]];
      done.
  - rewrite bool_decide_eq_false_2; [done|].
    intros [HA HB]. apply Hboth. split; by apply find_argument_Some.
Qed.

Lemma has_argument_add case_id r side a d :
  has_argument case_id r side (add_argument a d)
  ↔ has_argument case_id r side d
    ∨ (arg_case_id a = case_id ∧ arg_round a = r ∧ arg_side a = side).
Proof.
  unfold has_argument, add_argument. simpl. split.
  - intros (x & Hin & Hx). apply elem_of_app in Hin as [Hin|Hin].
    + left. by exists x.
    + apply list_elem_of_singleton in Hin as ->. by right.
  - intros [(x & Hin & Hx)|Ha].
    + exists x. split; [apply elem_of_app; by left | done].
    + exists a. split; [apply elem_of_app; right; by apply list_elem_of_singleton | done].
Qed.

(** C6. [submit_argument] on an existing case: the finalized-case error,
    then the not-ready error for a draft, then the round-limit error when
    [current_round >= max_rounds], then the duplicate-submission error
    when the side already has an argument for the current round, each
    leaving the world as it was; past these gates exactly one new
    Argument for (case, current round, side) is appended. *)
Theorem submit_argument_gates env case_id side txt user w c :
  cases (db w) !! case_id = Some c →
  let r := current_round c in
  let out := submit_argument env case_id side txt user w in
  (status c = "finalized" →
     out = (w, inl (Exception "Cannot submit arguments to a finalized case")))
  ∧ (status c = "draft" →
     out = (w, inl (Exception
       "Case must have an initial verdict before arguments can be submitted")))
  ∧ (status c ≠ "finalized" → status c ≠ "draft" → r >= max_rounds c →
     out = (w, inl (Exception
       ("Maximum rounds (" +:+ pretty (max_rounds c)
        +:+ ") already reached. Case ready for finalization."))))
  ∧ (status c ≠ "finalized" → status c ≠ "draft" → r < max_rounds c →
     has_argument case_id r side (db w) →
     out = (w, inl (Exception
       ("Side " +:+ side +:+ " has already submitted an argument for round "
        +:+ pretty r))))
  ∧ (status c ≠ "finalized" → status c ≠ "draft" → r < max_rounds c →
     ¬ has_argument case_id r side (db w) →
     arguments (db out.1)
     = arguments (db w) ++ [mkArgument case_id r side txt user]).
Proof.
  intros Hc r out. repeat split.
  - intros Hst. subst out. unfold submit_argument. unfold_m. simpl.
    rewrite Hc. by rewrite decide_True.
  - intros Hst. subst out. unfold submit_argument. unfold_m. simpl.
    rewrite Hc, Hst. by rewrite decide_False, decide_True.
  - intros Hfin Hdraft Hge. subst out. unfold submit_argument. unfold_m. simpl.
    rewrite Hc. rewrite decide_False, decide_False, decide_True; done.
  - intros Hfin Hdraft Hlt Hdup. subst out.
    apply find_argument_Some in Hdup as [a0 Ha0].
    unfold submit_argument. unfold_m. simpl. rewrite Hc.
    rewrite decide_False, decide_False, decide_False by (done || lia).
    fold r. by rewrite Ha0.
  - intros Hfin Hdraft Hlt Hnew. subst out.
    rewrite (submit_argument_admitted env case_id side txt user w c)
      by done.
    fold r. set (a := mkArgument case_id r side txt user).
    case_decide; [|done].
    pose proof (generate_verdict_with_arguments_effect env case_id r
                  (with_argument a w)) as Heff.
    destruct (generate_verdict_with_arguments env case_id r (with_argument a w))
      as [w2 [e|v]]; simpl in *.
    + destruct Heff as [(e' & _ & ->)|(v & Hv & _)]; [done|discriminate].
    + destruct Heff as [(e' & He & _)|(v' & _ & -> & _)]; [discriminate|done].
Qed.

(** C8. An admitted submission whose other side has not argued in the
    round: the answer is the new Argument with no verdict and
    [waiting_for_other_side = true]; the request log is untouched (no
    oracle call), and so are the case rows, the verdicts and the
    documents: only the new Argument row is added. *)
Theorem submit_argument_waits env case_id side other txt user w c :
  admitted case_id side c w →
  (side = "A" ∧ other = "B") ∨ (side = "B" ∧ other = "A") →
  ¬ has_argument case_id (current_round c) other (db w) →
  let a := mkArgument case_id (current_round c) side txt user in
  let out := submit_argument env case_id side txt user w in
  out.2 = inr (mkSubmitResult a None true)
  ∧ oracle_calls out.1 = oracle_calls w
  ∧ cases (db out.1) = cases (db w)
  ∧ verdicts (db out.1) = verdicts (db w)
  ∧ documents (db out.1) = documents (db w)
  ∧ arguments (db out.1) = arguments (db w) ++ [a].
Proof.
  intros Hadm Hsides Hother a out. subst out.
  rewrite (submit_argument_admitted env case_id side txt user w c Hadm).
  fold a. rewrite decide_False; [done|].
  intros [HA HB]. apply has_argument_add in HA, HB. simpl in HA, HB.
  destruct Hsides as [[-> ->]|[-> ->]].
  - destruct HB as [HB|(_ & _ & HB)]; [by apply Hother | discriminate].
  - destruct HA as [HA|(_ & _ & HA)]; [by apply Hother | discriminate].
Qed.

(** The four gates of [submit_argument], each leaving the world as it
    was. *)
Lemma submit_argument_rejections env case_id side txt user w c :
  cases (db w) !! case_id = Some c →
  let out := submit_argument env case_id side txt user w in
  (status c = "finalized" →
     out = (w, inl (Exception "Cannot submit arguments to a finalized case")))
  ∧ (status c = "draft" →
     out = (w, inl (Exception
       "Case must have an initial verdict before arguments can be submitted")))
  ∧ (status c ≠ "finalized" → status c ≠ "draft" →
     current_round c >= max_rounds c →
     out = (w, inl (Exception
       ("Maximum rounds (" +:+ pretty (max_rounds c)
        +:+ ") already reached. Case ready for finalization."))))
  ∧ (status c ≠ "finalized" → status c ≠ "draft" →
     current_round c < max_rounds c →
     has_argument case_id (current_round c) side (db w) →
     out = (w, inl (Exception
       ("Side " +:+ side +:+ " has already submitted an argument for round "
        +:+ pretty (current_round c))))).
Proof.
  intros Hc out. subst out. unfold submit_argument. unfold_m. simpl. rewrite Hc.
  split; [|split; [|split]].
  - intros Hst. by rewrite decide_True.
  - intros Hst. rewrite Hst. by rewrite decide_False, decide_True.
  - intros Hfin Hdraft Hge. by rewrite decide_False, decide_False, decide_True.
  - intros Hfin Hdraft Hlt Hdup. apply find_argument_Some in Hdup as [a0 Ha0].
    rewrite decide_False, decide_False, decide_False by (done || lia).
    by rewrite Ha0.
Qed.

(** Ways an adjudication goes wrong outside the store. *)
Definition oracle_down (env : Env) : Prop :=
  ∀ rq, ∃ e, oracle env rq = inl e.

Definition reply_rejected (env : Env) : Prop :=
  ∀ rq, ∃ resp, oracle env rq = inr resp ∧
    match json_loads (content resp) with
    | inl _ => True
    | inr vd => missing_fields required_fields vd ≠ inr []
    end.

Lemma generate_verdict_with_arguments_fails env case_id r w :
  oracle_down env ∨ reply_rejected env ∨ is_Some (verdict_commit_error env) →
  ∃ e, (generate_verdict_with_arguments env case_id r w).2 = inl e.
Proof.
  intros Hbad.
  unfold generate_verdict_with_arguments, chat_completions_create, commit_verdict.
  unfold_m. simpl.
  destruct (cases (db w) !! case_id) as [c|]; simpl; [|by eexists].
  destruct (build_verdict_with_arguments_prompt _ _ _ _ _ _ _) as [e|p]; simpl;
    [by eexists|].
  set (rq := mkRequest judge_of_arguments p 2500).
  destruct (oracle env rq) as [e|resp] eqn:Horacle; simpl; [by eexists|].
  destruct (json_loads (content resp)) as [msg|vd] eqn:Hloads; simpl;
    [by eexists|].
  destruct (missing_fields required_fields vd) as [e|[|m ms]] eqn:Hmiss; simpl;
    [by eexists| |by eexists].
  destruct (verdict_commit_error env) as [msg|] eqn:Hcommit; simpl; [by eexists|].
  exfalso. destruct Hbad as [Hdown|[Hrej|[msg Hmsg]]].
  - destruct (Hdown rq) as [e He]. congruence.
  - destruct (Hrej rq) as (resp' & Hresp & Hinv).
    rewrite Horacle in Hresp. injection Hresp as <-.
    rewrite Hloads in Hinv. by rewrite Hmiss in Hinv.
  - discriminate.
Qed.

(** When the adjudication of round [r] brings verdict [v]: the case is
    there, the prompt can be built, the model replies to it, the reply
    parses to a value that names the six fields, and the verdict row is
    committed; [v] is then made of the parsed reply. *)
Definition adjudicated (env : Env) (case_id : UUID) (r : Z) (w : World)
    (v : Verdict) : Prop :=
  ∃ c p resp vd,
    cases (db w) !! case_id = Some c
    ∧ (let docs := ready_documents case_id (db w) in
       let args := round_arguments case_id r (db w) in
       build_verdict_with_arguments_prompt c
         (docs_of_side "A" docs) (docs_of_side "B" docs)
         (args_of_side "A" args) (args_of_side "B" args)
         (find_verdict case_id (r - 1) (db w)) r = inr p)
    ∧ oracle env (mkRequest judge_of_arguments p 2500) = inr resp
    ∧ json_loads (content resp) = inr vd
    ∧ missing_fields required_fields vd = inr []
    ∧ verdict_commit_error env = None
    ∧ v = mkVerdict case_id r vd "gpt-4o-mini" (total_tokens resp).

Lemma generate_verdict_with_arguments_returns env case_id r w v :
  (generate_verdict_with_arguments env case_id r w).2 = inr v
  ↔ adjudicated env case_id r w v.
Proof.
  unfold adjudicated, generate_verdict_with_arguments, chat_completions_create,
    commit_verdict.
  unfold_m. simpl. split.
  - destruct (cases (db w) !! case_id) as [c|]; simpl; [|discriminate].
    destruct (build_verdict_with_arguments_prompt _ _ _ _ _ _ _) as [e|p] eqn:Hp;
      simpl; [discriminate|].
    destruct (oracle env _) as [e|resp] eqn:Horacle; simpl; [discriminate|].
    destruct (json_loads (content resp)) as [msg|vd] eqn:Hloads; simpl;
      [discriminate|].
    destruct (missing_fields required_fields vd) as [e|[|m ms]] eqn:Hmiss; simpl;
      [discriminate| |discriminate].
    destruct (verdict_commit_error env) eqn:Hcommit; simpl; [discriminate|].
    intros [= <-]. by exists c, p, resp, vd.
  - intros (c & p & resp & vd & -> & Hp & Horacle & Hloads & Hmiss & Hcommit & ->).
    simpl in *. rewrite Hp. simpl. rewrite Horacle. simpl. rewrite Hloads. simpl.
    rewrite Hmiss. simpl. by rewrite Hcommit.
Qed.

(** C3. The submission that completes round [r = current_round].  The
    adjudication writes no case row, so a verdict is persisted while the
    counter still reads [r].  A verdict comes out exactly when the round
    is [adjudicated]; the submission then returns it, it carries round
    [r], it is the one row added to the verdicts, and only then is the
    counter set to [r + 1].  When no verdict comes out, the counter and
    the verdicts stay as they were. *)
Theorem round_verdict_numbering env case_id side txt user w c :
  admitted case_id side c w →
  let r := current_round c in
  let a := mkArgument case_id r side txt user in
  both_sides_in case_id r (add_argument a (db w)) →
  let adj := generate_verdict_with_arguments env case_id r (with_argument a w) in
  let out := submit_argument env case_id side txt user w in
  cases (db adj.1) = cases (db w)
  ∧ match adj.2 with
    | inr v =>
        v_round v = r
        ∧ verdicts (db adj.1) = verdicts (db w) ++ [v]
        ∧ out.2 = inr (mkSubmitResult a (Some v) false)
        ∧ verdicts (db out.1) = verdicts (db w) ++ [v]
        ∧ cases (db out.1)
          = <[case_id := set_progress (status c) (r + 1) (now env) c]>
              (cases (db w))
        ∧ current_round <$> cases (db out.1) !! case_id = Some (r + 1)
    | inl _ =>
        (∃ e, out.2 = inl e)
        ∧ verdicts (db out.1) = verdicts (db w)
        ∧ cases (db out.1) = cases (db w)
    end
  ∧ (∀ v, adj.2 = inr v ↔ adjudicated env case_id r (with_argument a w) v)
  ∧ (∀ v, adjudicated env case_id r (with_argument a w) v →
       out.2 = inr (mkSubmitResult a (Some v) false)
       ∧ v_round v = r
       ∧ verdicts (db out.1) = verdicts (db w) ++ [v]
       ∧ current_round <$> cases (db out.1) !! case_id = Some (r + 1)).
Proof.
  intros Hadm r a Hboth adj out.
  assert (Hmain :
    cases (db adj.1) = cases (db w)
    ∧ match adj.2 with
      | inr v =>
          v_round v = r
          ∧ verdicts (db adj.1) = verdicts (db w) ++ [v]
          ∧ out.2 = inr (mkSubmitResult a (Some v) false)
          ∧ verdicts (db out.1) = verdicts (db w) ++ [v]
          ∧ cases (db out.1)
            = <[case_id := set_progress (status c) (r + 1) (now env) c]>
                (cases (db w))
          ∧ current_round <$> cases (db out.1) !! case_id = Some (r + 1)
      | inl _ =>
          (∃ e, out.2 = inl e)
          ∧ verdicts (db out.1) = verdicts (db w)
          ∧ cases (db out.1) = cases (db w)
      end).
  { subst out.
    rewrite (submit_argument_admitted env case_id side txt user w c Hadm).
    fold r a. rewrite decide_True by done.
    pose proof (generate_verdict_with_arguments_effect env case_id r
                  (with_argument a w)) as Heff.
    fold adj in Heff |- *. destruct adj as [w2 [e|v]]; simpl in *.
    - destruct Heff as [(e' & _ & ->)|(v & Hv & _)]; [|discriminate].
      split; [done|]. split; [by eexists | done].
    - destruct Heff as [(e' & He & _)|(v' & Hv & -> & Hid & Hr)]; [discriminate|].
      injection Hv as <-. simpl. repeat split; try done.
      by rewrite lookup_insert_eq. }
  destruct Hmain as [Hcases Hmatch].
  split; [done|]. split; [done|]. split.
  - intros v. apply generate_verdict_with_arguments_returns.
  - intros v Hv. apply generate_verdict_with_arguments_returns in Hv.
    fold adj in Hv. rewrite Hv in Hmatch. tauto.
Qed.

(** C4, as the code has it.  Both sides have argued in the round and
    the adjudication fails (the client raises, the reply is rejected, or
    the verdict row cannot be committed, among others): the call fails,
    both Argument rows are in the store, the case row and so
    [current_round] are as before, and no verdict was added.  The
    adjudication is not run again: it has no caller but
    [submit_argument], which from then on turns side A and side B away
    at the duplicate gate and leaves the world as it is. *)
Theorem failed_adjudication_keeps_arguments env case_id side txt user w c :
  admitted case_id side c w →
  let r := current_round c in
  let a := mkArgument case_id r side txt user in
  both_sides_in case_id r (add_argument a (db w)) →
  let adj := generate_verdict_with_arguments env case_id r (with_argument a w) in
  let out := submit_argument env case_id side txt user w in
  (oracle_down env ∨ reply_rejected env ∨ is_Some (verdict_commit_error env) →
   ∃ e, adj.2 = inl e)
  ∧ ∀ e, adj.2 = inl e →
      out.2 = inl (Exception ("Failed to generate verdict after arguments: "
                              +:+ exn_str e))
      ∧ db out.1 = add_argument a (db w)
      ∧ both_sides_in case_id r (db out.1)
      ∧ cases (db out.1) !! case_id = Some c
      ∧ verdicts (db out.1) = verdicts (db w)
      ∧ ∀ env' side' txt' user', side' = "A" ∨ side' = "B" →
          submit_argument env' case_id side' txt' user' out.1
          = (out.1, inl (Exception
               ("Side " +:+ side'
                +:+ " has already submitted an argument for round "
                +:+ pretty r))).
Proof.
  intros Hadm r a Hboth adj out. split.
  { apply generate_verdict_with_arguments_fails. }
  intros e He.
  assert (Hkept : out.2 = inl (Exception
                    ("Failed to generate verdict after arguments: "
                     +:+ exn_str e))
                  ∧ db out.1 = add_argument a (db w)).
  { subst out.
    rewrite (submit_argument_admitted env case_id side txt user w c Hadm).
    fold r a. rewrite decide_True by done.
    pose proof (generate_verdict_with_arguments_effect env case_id r
                  (with_argument a w)) as Heff.
    fold adj in Heff |- *. destruct adj as [w2 [e'|v]]; simpl in *; [|discriminate].
    injection He as ->.
    by destruct Heff as [(e' & _ & ->)|(v & Hv & _)]; [|discriminate]. }
  destruct Hkept as [Hout Hdb].
  destruct Hadm as (Hc & Hfin & Hdraft & Hlt & Hnew).
  assert (Hc' : cases (db out.1) !! case_id = Some c) by by rewrite Hdb.
  split; [done|]. split; [done|]. split; [by rewrite Hdb|].
  split; [done|]. split; [by rewrite Hdb|].
  intros env' side' txt' user' Hside.
  destruct (submit_argument_rejections env' case_id side' txt' user' out.1 c Hc')
    as (_ & _ & _ & Hdup).
  apply Hdup; try done. rewrite Hdb. by destruct Hside as [-> | ->]; apply Hboth.
Qed.

(** *** Response validation *)

Lemma missing_fields_dict items fields :
  missing_fields fields (JObj items)
  = inr (filter (λ f, dict_get f items = None) fields).
Proof.
  induction fields as [|f fields IH]; [done|].
  change (missing_fields (f :: fields) (JObj items))
    with (match missing_fields fields (JObj items) with
          | inl e => inl e
          | inr ms =>
              inr (if bool_decide (is_Some (dict_get f items)) then ms else f :: ms)
          end).
  rewrite IH. rewrite filter_cons.
  destruct (dict_get f items) as [x|] eqn:Hf.
  - rewrite bool_decide_eq_true_2 by by eexists. by rewrite decide_False.
  - rewrite bool_decide_eq_false_2 by (by intros [? ?]). by rewrite decide_True.
Qed.

Lemma filter_nil_iff {A} (P : A → Prop) `{∀ x, Decision (P x)} (l : list A) :
  filter P l = [] ↔ ∀ x, x ∈ l → ¬ P x.
Proof.
  split.
  - intros Hnil x Hin HP.
    assert (Hx : x ∈ filter P l) by (apply list_elem_of_filter; done).
    rewrite Hnil in Hx. by apply elem_of_nil in Hx.
  - intros Hall. destruct (filter P l) as [|y ys] eqn:Hf; [done|].
    assert (Hy : y ∈ filter P l) by (rewrite Hf; apply list_elem_of_here).
    apply list_elem_of_filter in Hy as [HP Hin]. by destruct (Hall y Hin).
Qed.

Definition a_winner (w : string) : Prop := w = "A" ∨ w = "B" ∨ w = "undecided".

Lemma winner_check x :
  json_is_str "A" x || json_is_str "B" x || json_is_str "undecided" x = true
  ↔ ∃ w, x = JStr w ∧ a_winner w.
Proof.
  unfold a_winner. destruct x; simpl;
    try (split; [discriminate | by intros (w & ? & _)]).
  rewrite !orb_true_iff, !bool_decide_eq_true. split.
  - intros Hw. exists s. tauto.
  - intros (w & [= ->] & Hw). tauto.
Qed.

(** What [parse_verdict_json] lets through: a text that parses to a
    dict with the six fields whose winner is one of the three strings.
    Nothing is asked of [confidence_score] beyond its presence. *)
Definition accepted (s : string) (v : json) : Prop :=
  json_loads s = inr v ∧
  ∃ items w, v = JObj items
    ∧ (∀ f, f ∈ required_fields → is_Some (dict_get f items))
    ∧ dict_get "winner" items = Some (JStr w) ∧ a_winner w.

Lemma parse_verdict_json_accepts s v :
  parse_verdict_json s = inr v ↔ accepted s v.
Proof.
  unfold parse_verdict_json, accepted.
  destruct (json_loads s) as [msg|vd]; [split; [done | by intros [? _]]|].
  destruct vd as [|b|n|q|s0|xs|items].
  1-4: split; [cbv [missing_fields required_fields py_in]; discriminate
              | by intros ([= <-] & ? & ? & [=] & _)].
  1-2: destruct (missing_fields required_fields _) as [e|[|m ms]];
         (split; [discriminate | by intros ([= <-] & ? & ? & [=] & _)]).
  rewrite missing_fields_dict.
    destruct (filter _ required_fields) as [|m ms] eqn:Hmiss.
    + assert (Hall : ∀ f, f ∈ required_fields → is_Some (dict_get f items)).
      { intros f Hf.
        pose proof (proj1 (filter_nil_iff _ _) Hmiss f Hf) as Hpresent.
        simpl in Hpresent. by apply not_eq_None_Some. }
      destruct (Hall "winner") as [x Hx]; [set_solver|].
      simpl. rewrite Hx.
      destruct (json_is_str "A" x || json_is_str "B" x
                || json_is_str "undecided" x) eqn:Hw.
      * apply winner_check in Hw as (w & -> & Hw). split.
        -- intros [= <-]. split; [done|]. by exists items, w.
        -- by intros ([= <-] & _).
      * split; [discriminate|].
        intros ([= <-] & items' & w & [= <-] & _ & Hx' & Hw'). rewrite Hx in Hx'.
        injection Hx' as ->.
        assert (json_is_str "A" (JStr w) || json_is_str "B" (JStr w)
                || json_is_str "undecided" (JStr w) = true)
          by (apply winner_check; by exists w).
        congruence.
    + split; [discriminate|].
      intros ([= <-] & items' & w & [= <-] & Hall & _).
      assert (Hm : m ∈ filter (λ f, dict_get f items = None) required_fields)
        by (rewrite Hmiss; apply list_elem_of_here).
      apply list_elem_of_filter in Hm as [Hnone Hin].
      destruct (Hall m Hin) as [? ?]. congruence.
Qed.

(** What [generate_initial_verdict] leaves behind: nothing on an
    exception; otherwise the round-0 verdict made of the accepted reply,
    and the case row set to in_progress, round 1. *)
Lemma generate_initial_verdict_effect env case_id w :
  let out := generate_initial_verdict env case_id w in
  (∃ e, out.2 = inl e ∧ db out.1 = db w)
  ∨ (∃ c rq resp vd,
       let v := mkVerdict case_id 0 vd "gpt-4o-mini" (total_tokens resp) in
       out.2 = inr v
       ∧ find_verdict case_id 0 (db w) = None
       ∧ cases (db w) !! case_id = Some c
       ∧ oracle env rq = inr resp
       ∧ parse_verdict_json (content resp) = inr vd
       ∧ db out.1 = put_case case_id
                      (set_progress "in_progress" 1 (now env) c)
                      (add_verdict v (db w))).
Proof.
  unfold generate_initial_verdict, fetch_case_context, chat_completions_create,
    commit_verdict.
  unfold_m. simpl.
  destruct (find_verdict case_id 0 (db w)) as [v0|] eqn:Hv0; simpl;
    [by left; eexists|].
  destruct (cases (db w) !! case_id) as [c|] eqn:Hc; simpl; [|by left; eexists].
  destruct (validate_documents _) as [e|[]]; simpl; [by left; eexists|].
  destruct (build_verdict_prompt _ _) as [e|p]; simpl; [by left; eexists|].
  destruct (oracle env _) as [e|resp] eqn:Horacle; simpl; [by left; eexists|].
  destruct (parse_verdict_json (content resp)) as [e|vd] eqn:Hparse; simpl;
    [by left; eexists|].
  destruct (verdict_commit_error env); simpl; [by left; eexists|].
  right. by eexists c, _, resp, vd.
Qed.

(** The response checks of the two services.  [parse_verdict_json]
    (the round-0 path) fails exactly on a text that is not accepted:
    one that does not
    parse, or does not parse to a dict holding all six required fields,
    or whose winner is not "A", "B" or "undecided"; an accepted text
    comes back as parsed, unchanged.  The value of [confidence_score] is
    not looked at.  On the round-0 path a rejected reply makes the call
    fail and leaves the store as it was; on the argument-round path so
    does a reply that does not parse or misses a required field. *)
Theorem response_validation s :
  ((∃ e, parse_verdict_json s = inl e) ↔ ¬ ∃ v, accepted s v)
  ∧ (∀ v, accepted s v → parse_verdict_json s = inr v)
  ∧ (∀ env case_id w,
       (∀ rq, ∃ resp, oracle env rq = inr resp ∧ content resp = s) →
       (¬ ∃ v, accepted s v) →
       let out := generate_initial_verdict env case_id w in
       (∃ e, out.2 = inl e) ∧ db out.1 = db w)
  ∧ (∀ env case_id r w,
       reply_rejected env →
       let out := generate_verdict_with_arguments env case_id r w in
       (∃ e, out.2 = inl e) ∧ db out.1 = db w).
Proof.
  split; [|split; [|split]].
  - split.
    + intros [e He] [v Hv]. apply parse_verdict_json_accepts in Hv. congruence.
    + intros Hno. destruct (parse_verdict_json s) as [e|v] eqn:Hp; [by eexists|].
      destruct Hno. exists v. by apply parse_verdict_json_accepts.
  - intros v. apply parse_verdict_json_accepts.
  - intros env case_id w Hreply Hno out.
    destruct (generate_initial_verdict_effect env case_id w)
      as [(e & He & Hdb)|(c & rq & resp & vd & Hout & _ & _ & Hrq & Hp & _)];
      [split; [by eexists | done]|].
    destruct Hno. exists vd. apply parse_verdict_json_accepts.
    destruct (Hreply rq) as (resp' & Hresp & <-). congruence.
  - intros env case_id r w Hrej out.
    destruct (generate_verdict_with_arguments_fails env case_id r w) as [e He];
      [by right; left|].
    destruct (generate_verdict_with_arguments_effect env case_id r w)
      as [(e' & _ & Hdb)|(v & Hv & _)]; [|rewrite He in Hv; discriminate].
    split; [by exists e | done].
Qed.

(** C7, as the code has it.  On an existing case with no round-0 verdict
    yet, [generate_initial_verdict] raises the Side A error when side A
    has no ready document, and the Side B error when side A has one and
    side B has none, in both cases leaving the world as it was; when it
    returns a verdict, that verdict is for round 0, it is the one row
    added to the verdicts, and the case row is in_progress at round 1. *)
Theorem initial_verdict_needs_evidence env case_id w c :
  cases (db w) !! case_id = Some c →
  ¬ has_verdict case_id 0 (db w) →
  let docs := ready_documents case_id (db w) in
  let out := generate_initial_verdict env case_id w in
  (docs_of_side "A" docs = [] →
     out = (w, inl (ValueError "Side A has not submitted any documents")))
  ∧ (docs_of_side "A" docs ≠ [] → docs_of_side "B" docs = [] →
     out = (w, inl (ValueError "Side B has not submitted any documents")))
  ∧ (∀ v, out.2 = inr v →
       v_case_id v = case_id ∧ v_round v = 0
       ∧ verdicts (db out.1) = verdicts (db w) ++ [v]
       ∧ ∃ c', cases (db out.1) !! case_id = Some c'
              ∧ status c' = "in_progress" ∧ current_round c' = 1).
Proof.
  intros Hc Hno docs out. apply find_verdict_None in Hno. split; [|split].
  - intros HA. subst out. unfold generate_initial_verdict, fetch_case_context.
    unfold_m. simpl. rewrite Hno, Hc. simpl. fold docs.
    unfold validate_documents. simpl. by rewrite HA.
  - intros HA HB. subst out. unfold generate_initial_verdict, fetch_case_context.
    unfold_m. simpl. rewrite Hno, Hc. simpl. fold docs.
    unfold validate_documents. simpl. rewrite HB.
    by destruct (docs_of_side "A" docs).
  - intros v Hv.
    destruct (generate_initial_verdict_effect env case_id w)
      as [(e & He & _)|(c0 & rq & resp & vd & Hout & _ & Hc0 & _ & _ & Hdb)];
      [subst out; rewrite He in Hv; discriminate|].
    subst out. rewrite Hout in Hv. injection Hv as <-. rewrite Hdb. simpl.
    repeat split. eexists. by rewrite lookup_insert_eq.
Qed.

(** *** The round counter and the verdicts *)

(** The other operations, by what they leave in the store. *)
Lemma submit_argument_effect env case_id side txt user w :
  let out := submit_argument env case_id side txt user w in
  db out.1 = db w
  ∨ (∃ a, db out.1 = add_argument a (db w))
  ∨ (∃ c a v,
       cases (db w) !! case_id = Some c
       ∧ status c ≠ "draft"
       ∧ current_round c < max_rounds c
       ∧ v_case_id v = case_id ∧ v_round v = current_round c
       ∧ db out.1 = put_case case_id
                      (set_progress (status c) (current_round c + 1) (now env) c)
                      (add_verdict v (add_argument a (db w)))).
Proof.
  intros out.
  assert (Hrejected :
    ∀ c, cases (db w) !! case_id = Some c →
         status c = "finalized" ∨ status c = "draft"
         ∨ current_round c >= max_rounds c
         ∨ is_Some (find_argument case_id (current_round c) side (db w)) →
         db out.1 = db w).
  { intros c Hc Hgate. subst out. unfold submit_argument. unfold_m. simpl.
    rewrite Hc.
    destruct (decide (status c = "finalized")); [done|].
    destruct (decide (status c = "draft")); [done|].
    destruct (decide (current_round c >= max_rounds c)); [done|].
    destruct Hgate as [?|[?|[?|[a0 Ha0]]]]; try done. by rewrite Ha0. }
  destruct (cases (db w) !! case_id) as [c|] eqn:Hc.
  2: { left. subst out. unfold submit_argument. unfold_m. simpl. by rewrite Hc. }
  destruct (decide (status c = "finalized")); [left; eauto|].
  destruct (decide (status c = "draft")); [left; eauto|].
  destruct (decide (current_round c >= max_rounds c)); [left; eauto 6|].
  destruct (find_argument case_id (current_round c) side (db w)) eqn:Hfind;
    [left; apply (Hrejected c); eauto 6|].
  assert (Hadm : admitted case_id side c w).
  { repeat split; try done; [lia | by apply find_argument_None]. }
  subst out. rewrite (submit_argument_admitted env case_id side txt user w c Hadm).
  set (a := mkArgument case_id (current_round c) side txt user).
  case_decide; [|right; left; by exists a].
  pose proof (generate_verdict_with_arguments_effect env case_id
                (current_round c) (with_argument a w)) as Heff.
  destruct (generate_verdict_with_arguments env case_id (current_round c)
              (with_argument a w)) as [w2 [e|v]]; simpl in *.
  - destruct Heff as [(e' & _ & ->)|(v & Hv & _)]; [|discriminate].
    right; left. by exists a.
  - destruct Heff as [(e' & He & _)|(v' & Hv & -> & Hid & Hr)]; [discriminate|].
    injection Hv as <-. right; right. exists c, a, v. repeat split; try done. lia.
Qed.

Lemma create_case_effect env id number data user w :
  let out := create_case env id number data user w in
  db out.1 = db w
  ∨ (∃ c, cases (db w) !! id = None ∧ status c = "draft"
          ∧ current_round c = 0 ∧ max_rounds c = 5
          ∧ db out.1 = put_case id c (db w)).
Proof.
  unfold create_case. unfold_m. simpl.
  destruct (cases (db w) !! id) eqn:Hid; simpl; [by left|].
  destruct (bool_decide (number_taken number (db w))); simpl; [by left|].
  right. eexists (mkCase _ _ _ _ _ _ "draft" 0 5 _ _ _). by repeat split.
Qed.

Lemma apply_update_keeps data t c c' :
  apply_update data t c = Some c' →
  current_round c' = current_round c ∧ max_rounds c' = max_rounds c
  ∧ (upd_status data = None → status c' = status c).
Proof.
  unfold apply_update. intros Hc'.
  destruct (set_required (upd_title data) _); [|done].
  destruct (set_required (upd_case_type data) _); [|done].
  destruct (set_required (upd_jurisdiction data) _); [|done].
  destruct (set_required (upd_status data) _) as [st|] eqn:Hst; [|done].
  injection Hc' as <-. simpl. repeat split.
  intros Hnone. rewrite Hnone in Hst. simpl in Hst. congruence.
Qed.

Lemma update_case_effect env id data user w :
  let out := update_case env id data user w in
  db out.1 = db w
  ∨ (∃ c c', cases (db w) !! id = Some c
             ∧ apply_update data (now env) c = Some c'
             ∧ db out.1 = put_case id c' (db w)).
Proof.
  unfold update_case, get_case_by_id. unfold_m. simpl.
  destruct (cases (db w) !! id) as [c|] eqn:Hc; simpl; [|by left].
  destruct (decide (created_by c = user)); simpl; [|by left].
  destruct (apply_update data (now env) c) as [c'|] eqn:Hupd; simpl; [|by left].
  right. by exists c, c'.
Qed.

Lemma delete_case_effect id user w :
  let out := delete_case id user w in
  db out.1 = db w ∨ db out.1 = drop_case id (db w).
Proof.
  unfold delete_case. unfold_m. simpl.
  destruct (get_case_by_id id user (db w)); simpl; [by right | by left].
Qed.

Lemma finalize_case_effect env id user w :
  let out := finalize_case env id user w in
  (∃ e, out.2 = inl e ∧ out.1 = w)
  ∨ (∃ c, cases (db w) !! id = Some c
          ∧ created_by c = user ∧ status c ≠ "finalized"
          ∧ has_verdict id 0 (db w)
          ∧ out.2 = inr (set_finalized (now env) c)
          ∧ db out.1 = put_case id (set_finalized (now env) c) (db w)).
Proof.
  unfold finalize_case. unfold_m. simpl.
  destruct (cases (db w) !! id) as [c|] eqn:Hc; simpl; [|by left; eexists].
  destruct (decide (created_by c ≠ user)) as [|Hown]; [by left; eexists|].
  destruct (decide (status c = "finalized")); [by left; eexists|].
  destruct (find_verdict id 0 (db w)) as [v0|] eqn:Hv0; simpl;
    [|by left; eexists].
  right. exists c. repeat split; try done.
  - by apply dec_stable.
  - apply find_verdict_Some. by eexists.
Qed.

(** A request that stores no Argument brings no verdict but one of
    round 0: the adjudication of a later round has no caller but the
    submission that stores the Argument completing the round. *)
Lemma request_without_argument env o w v :
  arguments (db (run_op env o w)) = arguments (db w) →
  v ∈ verdicts (db (run_op env o w)) →
  v ∈ verdicts (db w) ∨ v_round v = 0.
Proof.
  destruct o as [id number data user|id data user|id user|id
                |id side txt user|id user|docs]; simpl.
  - destruct (create_case_effect env id number data user w)
      as [->|(c & _ & _ & _ & _ & ->)]; intros _ Hv; by left.
  - destruct (update_case_effect env id data user w)
      as [->|(c & c' & _ & _ & ->)]; intros _ Hv; by left.
  - destruct (delete_case_effect id user w) as [->| ->]; intros _ Hv;
      [by left|]. left. simpl in Hv.
    by apply list_elem_of_filter in Hv as [_ ?].
  - destruct (generate_initial_verdict_effect env id w)
      as [(e & _ & ->)|(c & rq & resp & vd & _ & _ & _ & _ & _ & ->)];
      intros _ Hv; [by left|]. simpl in Hv.
    apply elem_of_app in Hv as [Hv|Hv]; [by left|].
    apply list_elem_of_singleton in Hv as ->. by right.
  - destruct (submit_argument_effect env id side txt user w)
      as [->|[(a & ->)|(c & a & v0 & _ & _ & _ & _ & _ & ->)]]; simpl.
    + intros _ Hv. by left.
    + intros Hargs. apply (f_equal length) in Hargs.
      rewrite length_app in Hargs. simpl in Hargs. lia.
    + intros Hargs. apply (f_equal length) in Hargs.
      rewrite length_app in Hargs. simpl in Hargs. lia.
  - destruct (finalize_case_effect env id user w)
      as [(e & _ & ->)|(c & _ & _ & _ & _ & _ & ->)]; intros _ Hv; by left.
  - intros _ Hv. by left.
Qed.

(** The counter of a case lies in [0, max_rounds], and the verdicts of
    the case, in the order they were written, are those of rounds
    [0, 1, ..., current_round - 1]. *)
Definition case_ok (d : DB) (id : UUID) (c : Case) : Prop :=
  (0 ≤ current_round c ≤ max_rounds c)%Z
  ∧ max_rounds c = 5
  ∧ v_round <$> case_verdicts id d = seqZ 0 (current_round c).

Definition consistent (d : DB) : Prop :=
  (∀ id c, cases d !! id = Some c → case_ok d id c)
  ∧ (∀ v, v ∈ verdicts d → is_Some (cases d !! v_case_id v)).

(** A draft case has seen no round. *)
Definition drafts_at_zero (d : DB) : Prop :=
  ∀ id c, cases d !! id = Some c → status c = "draft" → current_round c = 0.

Lemma consistent_ext d d' :
  cases d' = cases d → verdicts d' = verdicts d → consistent d → consistent d'.
Proof.
  unfold consistent, case_ok, case_verdicts. intros -> ->. done.
Qed.

Lemma consistent_empty : consistent empty_db.
Proof. split; [intros id c Hc | intros v Hv]; simpl in *; set_solver. Qed.

Lemma case_verdicts_orphan d id :
  consistent d → cases d !! id = None → case_verdicts id d = [].
Proof.
  intros [_ Horph] Hid. apply (filter_nil_iff _ _). intros v Hv Hvid.
  destruct (Horph v Hv) as [c Hc]. simpl in Hvid. congruence.
Qed.

Lemma consistent_put d id c' :
  consistent d →
  (match cases d !! id with
   | Some c => current_round c' = current_round c ∧ max_rounds c' = max_rounds c
   | None => current_round c' = 0 ∧ max_rounds c' = 5
   end) →
  consistent (put_case id c' d).
Proof.
  intros Hd Hc'. pose proof Hd as [Hok Horph]. split.
  - intros id0 c0. unfold put_case at 1. simpl. rewrite lookup_insert.
    case_decide as Hid.
    + intros [= <-]. subst id0. unfold case_ok, case_verdicts. simpl.
      destruct (cases d !! id) as [c|] eqn:Hc.
      * destruct Hc' as [-> ->]. apply (Hok id c Hc).
      * destruct Hc' as [-> ->]. fold (case_verdicts id d).
        rewrite (case_verdicts_orphan d id Hd Hc). done.
    + intros Hc0. apply (Hok id0 c0 Hc0).
  - intros v Hv. simpl. rewrite lookup_insert. case_decide; [by eexists|].
    by apply Horph.
Qed.

Lemma consistent_drop d id : consistent d → consistent (drop_case id d).
Proof.
  intros [Hok Horph]. split.
  - intros id0 c0. simpl. rewrite lookup_delete. case_decide as Hid; [done|].
    intros Hc0. destruct (Hok id0 c0 Hc0) as (Hr & Hmax & Hv).
    repeat split; try lia. rewrite <- Hv. f_equal.
    unfold case_verdicts, drop_case; cbn [verdicts].
    apply list_filter_filter_l. intros v Hv0 Hvid. congruence.
  - intros v. simpl. rewrite list_elem_of_filter. intros [Hne Hv].
    rewrite lookup_delete_ne by done. by apply Horph.
Qed.

Lemma case_verdicts_add v d id :
  case_verdicts id (add_verdict v d)
  = case_verdicts id d ++ (if decide (v_case_id v = id) then [v] else []).
Proof.
  unfold case_verdicts, add_verdict. simpl. rewrite filter_app. f_equal.
Qed.

Lemma seqZ_snoc n : (0 ≤ n)%Z → seqZ 0 (n + 1) = seqZ 0 n ++ [n].
Proof.
  intros Hn. rewrite seqZ_app by lia. f_equal.
Qed.

(** A verdict for the current round together with the counter moving on. *)
Lemma consistent_verdict d id c c' v :
  consistent d →
  cases d !! id = Some c →
  v_case_id v = id → v_round v = current_round c →
  current_round c < max_rounds c →
  current_round c' = current_round c + 1 → max_rounds c' = max_rounds c →
  consistent (put_case id c' (add_verdict v d)).
Proof.
  intros [Hok Horph] Hc Hvid Hvr Hlt Hr' Hmax'. split.
  - intros id0 c0. unfold put_case at 1. simpl. rewrite lookup_insert.
    destruct (Hok id c Hc) as (Hr & Hmax & Hv).
    case_decide as Hid.
    + intros [= <-]. subst id0. repeat split; try lia.
      change (case_verdicts id (put_case id c' (add_verdict v d)))
        with (case_verdicts id (add_verdict v d)).
      rewrite case_verdicts_add, decide_True by done.
      rewrite fmap_app, Hv, Hr', <- Hvr. simpl. rewrite Hvr.
      symmetry. apply seqZ_snoc. lia.
    + intros Hc0. destruct (Hok id0 c0 Hc0) as (Hr0 & Hmax0 & Hv0).
      repeat split; try lia.
      change (case_verdicts id0 (put_case id c' (add_verdict v d)))
        with (case_verdicts id0 (add_verdict v d)).
      rewrite case_verdicts_add, decide_False by congruence.
      by rewrite app_nil_r.
  - intros v0. simpl. rewrite elem_of_app, list_elem_of_singleton.
    rewrite lookup_insert. case_decide; [by eexists|].
    intros [Hv0| ->]; [by apply Horph | congruence].
Qed.

(** With no round-0 verdict the counter of a consistent case is 0. *)
Lemma no_initial_verdict_round d id c :
  consistent d → cases d !! id = Some c →
  find_verdict id 0 d = None → current_round c = 0.
Proof.
  intros [Hok _] Hc Hnone. destruct (Hok id c Hc) as (Hr & _ & Hv).
  destruct (decide (current_round c = 0)) as [|Hpos]; [done|].
  assert (H0 : 0 ∈ v_round <$> case_verdicts id d)
    by (rewrite Hv; apply elem_of_seqZ; lia).
  apply list_elem_of_fmap in H0 as (v & Hv0 & Hin).
  apply list_elem_of_filter in Hin as [Hid Hin].
  apply find_verdict_None in Hnone. destruct Hnone. by exists v.
Qed.

Lemma run_op_consistent env o w :
  consistent (db w) → consistent (db (run_op env o w)).
Proof.
  intros Hd. destruct o as [id number data user|id data user|id user|id
                            |id side txt user|id user|docs]; simpl.
  - destruct (create_case_effect env id number data user w)
      as [->|(c & Hnone & _ & Hr & Hmax & ->)]; [done|].
    apply consistent_put; [done|]. by rewrite Hnone.
  - destruct (update_case_effect env id data user w)
      as [->|(c & c' & Hc & Hupd & ->)]; [done|].
    apply consistent_put; [done|]. rewrite Hc.
    by destruct (apply_update_keeps _ _ _ _ Hupd) as (? & ? & _).
  - destruct (delete_case_effect id user w) as [->| ->]; [done|].
    by apply consistent_drop.
  - destruct (generate_initial_verdict_effect env id w)
      as [(e & _ & ->)|(c & rq & resp & vd & _ & Hnone & Hc & _ & _ & ->)];
      [done|].
    pose proof (no_initial_verdict_round _ _ _ Hd Hc Hnone) as Hr0.
    destruct Hd as [Hok Horph]. destruct (Hok id c Hc) as (_ & Hmax & _).
    apply (consistent_verdict _ _ c); simpl; try done; try lia.
  - destruct (submit_argument_effect env id side txt user w)
      as [->|[(a & ->)|(c & a & v & Hc & _ & Hlt & Hid & Hr & ->)]]; [done| |].
    + by apply (consistent_ext (db w)).
    + apply (consistent_verdict _ _ c); simpl; try done.
  - destruct (finalize_case_effect env id user w)
      as [(e & _ & ->)|(c & Hc & _ & _ & _ & _ & ->)]; [done|].
    apply consistent_put; [done|]. by rewrite Hc.
  - by apply (consistent_ext (db w)).
Qed.

Lemma foldl_run_consistent (h : list (Env * op)) w :
  consistent (db w) → consistent (db (foldl (λ w eo, run_op eo.1 eo.2 w) w h)).
Proof.
  revert w. induction h as [|[env o] h IH]; intros w Hw; [done|].
  simpl. apply IH. by apply run_op_consistent.
Qed.

Lemma run_consistent h : consistent (db (run h)).
Proof. apply foldl_run_consistent, consistent_empty. Qed.

Lemma drafts_put d id c' :
  drafts_at_zero d →
  (status c' = "draft" → current_round c' = 0) →
  drafts_at_zero (put_case id c' d).
Proof.
  intros Hd Hc' id0 c0. simpl. rewrite lookup_insert. case_decide.
  - by intros [= <-].
  - apply Hd.
Qed.

Lemma run_op_drafts env o w :
  sets_status o = false →
  drafts_at_zero (db w) → drafts_at_zero (db (run_op env o w)).
Proof.
  intros Hst Hd. destruct o as [id number data user|id data user|id user|id
                                |id side txt user|id user|docs]; simpl.
  - destruct (create_case_effect env id number data user w)
      as [->|(c & _ & _ & Hr & _ & ->)]; [done|].
    by apply drafts_put.
  - destruct (update_case_effect env id data user w)
      as [->|(c & c' & Hc & Hupd & ->)]; [done|].
    apply drafts_put; [done|].
    destruct (apply_update_keeps _ _ _ _ Hupd) as (-> & _ & Hsame).
    simpl in Hst. apply bool_decide_eq_false in Hst.
    rewrite Hsame by (by apply eq_None_not_Some). apply (Hd id c Hc).
  - destruct (delete_case_effect id user w) as [->| ->]; [done|].
    intros id0 c0. simpl. rewrite lookup_delete. case_decide; [done|]. apply Hd.
  - destruct (generate_initial_verdict_effect env id w)
      as [(e & _ & ->)|(c & rq & resp & vd & _ & _ & _ & _ & _ & ->)]; [done|].
    by apply drafts_put.
  - destruct (submit_argument_effect env id side txt user w)
      as [->|[(a & ->)|(c & a & v & _ & Hnd & _ & _ & _ & ->)]]; [done|done|].
    by apply drafts_put.
  - destruct (finalize_case_effect env id user w)
      as [(e & _ & ->)|(c & _ & _ & _ & _ & _ & ->)]; [done|].
    by apply drafts_put.
  - done.
Qed.

Definition status_by_service_only (h : list (Env * op)) : Prop :=
  Forall (λ eo, sets_status eo.2 = false) h.

Lemma foldl_run_drafts (h : list (Env * op)) w :
  status_by_service_only h →
  drafts_at_zero (db w) →
  drafts_at_zero (db (foldl (λ w eo, run_op eo.1 eo.2 w) w h)).
Proof.
  revert w. induction h as [|[env o] h IH]; intros w Hh Hw; [done|].
  apply Forall_cons in Hh as [Ho Hh]. simpl. apply IH; [done|].
  by apply run_op_drafts.
Qed.

Lemma case_ok_count d id c :
  case_ok d id c → Z.of_nat (length (case_verdicts id d)) = current_round c.
Proof.
  intros (Hr & _ & Hv).
  rewrite <- (length_fmap v_round), Hv, length_seqZ. lia.
Qed.

(** C2, as the code has it.  In the world after any history of requests:
    the counter of every case lies between 0 and [max_rounds], and the
    case has exactly [current_round] verdicts, whatever its status.  A
    draft case has no verdict as long as no request wrote the status
    column through the case update. *)
Theorem round_counter_invariant h id c :
  cases (db (run h)) !! id = Some c →
  (0 ≤ current_round c ≤ max_rounds c)%Z
  ∧ Z.of_nat (length (case_verdicts id (db (run h)))) = current_round c
  ∧ (status_by_service_only h → status c = "draft" →
     length (case_verdicts id (db (run h))) = 0%nat).
Proof.
  intros Hc. destruct (run_consistent h) as [Hok _].
  pose proof (Hok id c Hc) as Hcase. pose proof (case_ok_count _ _ _ Hcase) as Hn.
  split; [apply Hcase|]. split; [done|].
  intros Hh Hdraft.
  assert (Hzero : current_round c = 0).
  { apply (foldl_run_drafts h empty_world Hh) with (id := id); [|done|done].
    intros ? ?. simpl. by rewrite lookup_empty. }
  lia.
Qed.

Lemma filter_unique {A} (f : A → Z) (r : Z) (l : list A) :
  NoDup (f <$> l) → (length (filter (λ x, f x = r) l) ≤ 1)%nat.
Proof.
  induction l as [|x l IH]; [simpl; lia|].
  rewrite fmap_cons, NoDup_cons. intros [Hx Hl]. rewrite filter_cons.
  case_decide as Hfx; [|by apply IH]. simpl.
  replace (filter (λ x0, f x0 = r) l) with (@nil A); [simpl; lia|].
  symmetry. apply (filter_nil_iff _ _). intros y Hy Hfy. apply Hx.
  apply list_elem_of_fmap. exists y. split; [congruence | done].
Qed.

(** C1, as the code has it.  [generate_initial_verdict] on a case that
    has its round-0 verdict raises "Round 0 verdict already exists for
    this case" and leaves the world as it was: no second verdict is made
    and the first one is not returned.  After any history of requests
    there is at most one verdict for a case and a round, and none yet
    for the round a case is in, which is the round the argument path
    writes its verdict for. *)
Theorem verdict_unique_per_round :
  (∀ env case_id w,
     has_verdict case_id 0 (db w) →
     generate_initial_verdict env case_id w
     = (w, inl (Exception "Round 0 verdict already exists for this case")))
  ∧ (∀ h case_id r,
       (length (filter (λ v, v_case_id v = case_id ∧ v_round v = r)
                       (verdicts (db (run h)))) ≤ 1)%nat)
  ∧ (∀ h case_id c,
       cases (db (run h)) !! case_id = Some c →
       ¬ has_verdict case_id (current_round c) (db (run h))).
Proof.
  split; [|split].
  - intros env case_id w Hv. apply find_verdict_Some in Hv as [v0 Hv0].
    unfold generate_initial_verdict. unfold_m. simpl. by rewrite Hv0.
  - intros h case_id r. pose proof (run_consistent h) as Hd.
    set (d := db (run h)) in *.
    replace (filter (λ v, v_case_id v = case_id ∧ v_round v = r) (verdicts d))
      with (filter (λ v, v_round v = r) (case_verdicts case_id d)).
    2: { unfold case_verdicts. rewrite list_filter_filter.
         apply list_filter_iff. intros v. tauto. }
    destruct (cases d !! case_id) as [c|] eqn:Hc.
    + apply filter_unique. destruct Hd as [Hok _].
      destruct (Hok case_id c Hc) as (_ & _ & ->). apply NoDup_seqZ.
    + rewrite (case_verdicts_orphan d case_id Hd Hc). simpl. lia.
  - intros h case_id c Hc (v & Hin & Hid & Hr).
    destruct (run_consistent h) as [Hok _].
    destruct (Hok case_id c Hc) as (_ & _ & Hv).
    assert (Hmem : current_round c ∈ v_round <$> case_verdicts case_id (db (run h))).
    { apply list_elem_of_fmap. exists v. split; [done|].
      apply list_elem_of_filter. done. }
    rewrite Hv in Hmem. apply elem_of_seqZ in Hmem. lia.
Qed.

(** *** The argument-round prompt *)


End Properties.

(** *** Finalization *)

Section Finalization.

Context `{Builtins}.

(** [finalize_case] called by the owner: a conflict on a finalized case,
    a validation error without a round-0 verdict, and otherwise the case
    row is finalized and stamped. *)
Lemma finalize_case_gates env case_id user w c :
  cases (db w) !! case_id = Some c →
  created_by c = user →
  let out := finalize_case env case_id user w in
  (status c = "finalized" →
     out = (w, inl (HTTPException 409 "Case is already finalized")))
  ∧ (status c ≠ "finalized" → ¬ has_verdict case_id 0 (db w) →
     out = (w, inl (HTTPException 422
                      "Cannot finalize case without an initial verdict")))
  ∧ (status c ≠ "finalized" → has_verdict case_id 0 (db w) →
     out.2 = inr (set_finalized (now env) c)
     ∧ db out.1 = put_case case_id (set_finalized (now env) c) (db w)).
Proof.
  intros Hc Hown out. subst out. unfold finalize_case. unfold_m. simpl.
  rewrite Hc. rewrite decide_False by (intros Hne; by apply Hne).
  split; [|split].
  - intros Hfin. by rewrite decide_True.
  - intros Hfin Hno. apply find_verdict_None in Hno.
    rewrite decide_False by done. by rewrite Hno.
  - intros Hfin Hv. apply find_verdict_Some in Hv as [v0 Hv0].
    rewrite decide_False by done. by rewrite Hv0.
Qed.

(** While the status reads finalized and the round-0 verdict exists,
    neither an argument nor a verdict can be added. *)
Lemma finalized_case_is_closed env case_id side txt user w c :
  cases (db w) !! case_id = Some c →
  status c = "finalized" →
  has_verdict case_id 0 (db w) →
  (submit_argument env case_id side txt user w).1 = w
  ∧ (generate_initial_verdict env case_id w).1 = w.
Proof.
  intros Hc Hfin Hv. apply find_verdict_Some in Hv as [v0 Hv0]. split.
  - unfold submit_argument. unfold_m. simpl. rewrite Hc.
    by rewrite decide_True.
  - unfold generate_initial_verdict. unfold_m. simpl. by rewrite Hv0.
Qed.

End Finalization.

(** ** Scenarios *)

(** C1: the second call of [generate_initial_verdict] on the opened case
    raises; it does not return the verdict that exists. *)
Lemma second_initial_verdict_raises :
  ¬ @returns_existing_verdict sample_builtins good_env "c1" w_opened.
Proof.
  intros Hret. specialize (Hret v_opened). vm_compute in Hret.
  specialize (Hret eq_refl). discriminate Hret.
Qed.

Lemma verdict_unique_per_round_witness :
  @generate_initial_verdict sample_builtins good_env "c1" w_opened
  = (w_opened, inl (Exception "Round 0 verdict already exists for this case"))
  ∧ ¬ has_verdict "c1" 1 (db w_opened).
Proof.
  destruct (@verdict_unique_per_round sample_builtins) as (Hraise & _ & Hnone).
  split.
  - apply Hraise. apply find_verdict_Some. exists v_opened. vm_compute. reflexivity.
  - apply (Hnone opened "c1" c_opened). vm_compute. reflexivity.
Defined.

(** C2: set back to draft through the case update, the opened case is a
    draft with one verdict. *)
Lemma redrafted_case_has_verdict :
  ¬ counts_as_specified (db (@run sample_builtins redrafted)).
Proof.
  intros Hspec.
  destruct (Hspec "c1" (set_progress "draft" 1 7 c_new)) as [_ Hcount];
    [vm_compute; reflexivity|].
  vm_compute in Hcount. discriminate Hcount.
Qed.

Lemma round_counter_invariant_witness :
  Z.of_nat (length (case_verdicts "c1" (db w_opened))) = 1
  ∧ length (case_verdicts "c1" (db w_new)) = 0%nat.
Proof.
  split.
  - apply (@round_counter_invariant sample_builtins opened "c1" c_opened).
    vm_compute. reflexivity.
  - apply (@round_counter_invariant sample_builtins
             [ (good_env, CreateCase "c1" "CAS-2025-ABCDEF" new_case "u1") ]
             "c1" c_new).
    + vm_compute. reflexivity.
    + repeat constructor.
    + reflexivity.
Defined.

Lemma w_waiting_admits_b : admitted "c1" "B" c_opened w_waiting.
Proof.
  split; [vm_compute; reflexivity|]. split; [discriminate|].
  split; [discriminate|]. split; [reflexivity|].
  apply find_argument_None. vm_compute. reflexivity.
Defined.

Lemma w_waiting_completes :
  both_sides_in "c1" 1
    (add_argument (mkArgument "c1" 1 "B" reply "u1") (db w_waiting)).
Proof.
  split; apply find_argument_Some; vm_compute; eexists; reflexivity.
Defined.

(** The prompt of round 1 once both arguments are in. *)
Definition prompt_round_1 : string :=
  let w := with_argument (mkArgument "c1" 1 "B" reply "u1") w_waiting in
  let docs := ready_documents "c1" (db w) in
  let args := round_arguments "c1" 1 (db w) in
  match @build_verdict_with_arguments_prompt sample_builtins c_opened
          (docs_of_side "A" docs) (docs_of_side "B" docs)
          (args_of_side "A" args) (args_of_side "B" args)
          (find_verdict "c1" 0 (db w)) 1 with
  | inr p => p
  | inl _ => ""
  end.

(** C3, scenario 4: in round 1, after side A, the submission of side B
    completes the round: Verdict(round=1) is returned and stored, and
    the counter reads 2. *)
Lemma round_verdict_numbering_witness :
  let a := mkArgument "c1" (current_round c_opened) "B" reply "u1" in
  let v := mkVerdict "c1" (current_round c_opened) (reply_json "A" 1)
             "gpt-4o-mini" (Some 300) in
  let out := @submit_argument sample_builtins good_env "c1" "B" reply "u1"
               w_waiting in
  out.2 = inr (mkSubmitResult a (Some v) false)
  ∧ v_round v = current_round c_opened
  ∧ verdicts (db out.1) = verdicts (db w_waiting) ++ [v]
  ∧ current_round <$> cases (db out.1) !! "c1"
    = Some (current_round c_opened + 1).
Proof.
  intros a v out.
  destruct (@round_verdict_numbering sample_builtins good_env "c1" "B" reply "u1"
              w_waiting c_opened w_waiting_admits_b w_waiting_completes)
    as (_ & _ & _ & Hprod).
  apply (Hprod v).
  exists c_opened, prompt_round_1, (mkCompletion (reply_text "A" "1") (Some 300)),
    (reply_json "A" 1).
  split; [vm_compute; reflexivity|].
  split; [vm_compute; reflexivity|].
  split; [vm_compute; reflexivity|].
  split; [vm_compute; reflexivity|].
  split; [vm_compute; reflexivity|].
  split; vm_compute; reflexivity.
Defined.

(** Scenario 4 by evaluation: the verdict of round 1 comes back and the
    counter reads 2. *)
Example second_side_completes_round_1 :
  let out := @submit_argument sample_builtins good_env "c1" "B" reply "u1"
               w_waiting in
  out.2 = inr (mkSubmitResult (mkArgument "c1" 1 "B" reply "u1")
                 (Some (mkVerdict "c1" 1 (reply_json "A" 1) "gpt-4o-mini"
                                  (Some 300)))
                 false)
  ∧ current_round <$> cases (db out.1) !! "c1" = Some 2
  ∧ v_round <$> verdicts (db out.1) = [0; 1].
Proof. vm_compute. repeat split. Qed.

(** C4: the same submission while the model is unreachable. *)
Lemma failed_adjudication_keeps_arguments_witness :
  let a := mkArgument "c1" (current_round c_opened) "B" reply "u1" in
  let adj := @generate_verdict_with_arguments sample_builtins down_env "c1"
               (current_round c_opened) (with_argument a w_waiting) in
  let out := @submit_argument sample_builtins down_env "c1" "B" reply "u1"
               w_waiting in
  ∃ e, adj.2 = inl e
       ∧ out.2 = inl (Exception ("Failed to generate verdict after arguments: "
                                 +:+ exn_str e))
       ∧ db out.1 = add_argument a (db w_waiting)
       ∧ both_sides_in "c1" (current_round c_opened) (db out.1)
       ∧ cases (db out.1) !! "c1" = Some c_opened
       ∧ verdicts (db out.1) = verdicts (db w_waiting)
       ∧ ∀ env' side' txt' user', side' = "A" ∨ side' = "B" →
           @submit_argument sample_builtins env' "c1" side' txt' user' out.1
           = (out.1, inl (Exception
                ("Side " +:+ side'
                 +:+ " has already submitted an argument for round "
                 +:+ pretty (current_round c_opened)))).
Proof.
  intros a adj out.
  destruct (@failed_adjudication_keeps_arguments sample_builtins down_env "c1"
              "B" reply "u1" w_waiting c_opened w_waiting_admits_b
              w_waiting_completes) as [Hfails Hkeeps].
  destruct Hfails as [e He].
  - left. intros rq. exists (Exception "API Error"). reflexivity.
  - exists e. split; [exact He|]. exact (Hkeeps e He).
Defined.

Example unreachable_model_keeps_round_1 :
  let out := @submit_argument sample_builtins down_env "c1" "B" reply "u1"
               w_waiting in
  out.2 = inl (Exception
    "Failed to generate verdict after arguments: Failed to generate verdict: API Error")
  ∧ arg_side <$> arguments (db out.1) = ["A"; "B"]
  ∧ current_round <$> cases (db out.1) !! "c1" = Some 1
  ∧ v_round <$> verdicts (db out.1) = [0].
Proof. vm_compute. repeat split. Qed.

(** A reply with confidence 5 is invalid in the specification's
    wording, yet [parse_verdict_json] returns it and the round-0 path
    stores it. *)
Lemma confidence_is_not_checked :
  @invalid_as_specified sample_builtins (reply_text "A" "5") = true
  ∧ @parse_verdict_json sample_builtins (reply_text "A" "5")
    = inr (reply_json "A" 5)
  ∧ verdicts (db (@generate_initial_verdict sample_builtins
                    (answers (reply_text "A" "5") 7) "c1" w_evidence).1)
    = [ mkVerdict "c1" 0 (reply_json "A" 5) "gpt-4o-mini" (Some 300) ].
Proof. vm_compute. repeat split. Qed.

(** On the argument path the winner is not looked at either. *)
Example argument_round_accepts_any_winner :
  v_round <$> verdicts (db (@submit_argument sample_builtins
                              (answers (reply_text "C" "1") 7) "c1" "B" reply
                              "u1" w_waiting).1) = [0; 1]
  ∧ ∃ e, @parse_verdict_json sample_builtins (reply_text "C" "1") = inl e.
Proof. vm_compute. split; [reflexivity | eexists; reflexivity]. Qed.

Lemma response_validation_witness :
  (∃ e, @parse_verdict_json sample_builtins "not json" = inl e)
  ∧ @parse_verdict_json sample_builtins (reply_text "A" "1")
    = inr (reply_json "A" 1)
  ∧ db (@generate_initial_verdict sample_builtins (answers "not json" 7) "c1"
          w_evidence).1 = db w_evidence.
Proof.
  destruct (@response_validation sample_builtins "not json")
    as (Hfails & _ & Hinitial & _).
  destruct (@response_validation sample_builtins (reply_text "A" "1"))
    as (_ & Haccepts & _).
  assert (Hno : ¬ ∃ v, @accepted sample_builtins "not json" v).
  { intros (v & Hloads & _). vm_compute in Hloads. discriminate Hloads. }
  split; [|split].
  - apply Hfails. exact Hno.
  - apply Haccepts. split; [vm_compute; reflexivity|].
    eexists _, "A". split; [reflexivity|]. split.
    + intros f Hf. unfold required_fields in Hf.
      repeat (apply elem_of_cons in Hf as [->|Hf]; [vm_compute; eexists; reflexivity|]).
      by apply elem_of_nil in Hf.
    + split; [vm_compute; reflexivity | by left].
  - apply (Hinitial (answers "not json" 7) "c1" w_evidence); [|exact Hno].
    intros rq. eexists. split; reflexivity.
Defined.

(** C6: on the opened case the argument of side A is admitted and is the
    one row added; on the new case, still a draft, it is turned away. *)
Lemma submit_argument_gates_witness :
  arguments (db (@submit_argument sample_builtins good_env "c1" "A" plea "u1"
                   w_opened).1)
  = arguments (db w_opened) ++ [mkArgument "c1" 1 "A" plea "u1"]
  ∧ @submit_argument sample_builtins good_env "c1" "A" plea "u1" w_new
    = (w_new, inl (Exception
         "Case must have an initial verdict before arguments can be submitted")).
Proof.
  split.
  - destruct (@submit_argument_gates sample_builtins good_env "c1" "A" plea "u1"
                w_opened c_opened) as (_ & _ & _ & _ & Hadmit).
    + vm_compute. reflexivity.
    + apply Hadmit.
      * discriminate.
      * discriminate.
      * reflexivity.
      * apply find_argument_None. vm_compute. reflexivity.
  - destruct (@submit_argument_gates sample_builtins good_env "c1" "A" plea "u1"
                w_new c_new) as (_ & Hdraft & _).
    + vm_compute. reflexivity.
    + apply Hdraft. reflexivity.
Defined.

(** C7: once the round-0 verdict exists, a side A without ready
    documents gets the conflict, not the Side A error. *)
Lemma existing_verdict_comes_first :
  ¬ @side_a_error_as_specified sample_builtins good_env "c1" w_withdrawn.
Proof.
  intros Hspec. unfold side_a_error_as_specified in Hspec.
  vm_compute in Hspec. specialize (Hspec eq_refl). discriminate Hspec.
Qed.

Example existing_verdict_conflict :
  (@generate_initial_verdict sample_builtins good_env "c1" w_withdrawn).2
  = inl (Exception "Round 0 verdict already exists for this case").
Proof. vm_compute. reflexivity. Qed.

Lemma initial_verdict_needs_evidence_witness :
  @generate_initial_verdict sample_builtins good_env "c1" w_new
  = (w_new, inl (ValueError "Side A has not submitted any documents"))
  ∧ ∃ c', cases (db (@generate_initial_verdict sample_builtins good_env "c1"
                       w_evidence).1) !! "c1" = Some c'
          ∧ status c' = "in_progress" ∧ current_round c' = 1.
Proof.
  split.
  - destruct (@initial_verdict_needs_evidence sample_builtins good_env "c1"
                w_new c_new) as (HsideA & _).
    + vm_compute. reflexivity.
    + apply find_verdict_None. vm_compute. reflexivity.
    + apply HsideA. vm_compute. reflexivity.
  - destruct (@initial_verdict_needs_evidence sample_builtins good_env "c1"
                w_evidence c_new) as (_ & _ & Hsuccess).
    + vm_compute. reflexivity.
    + apply find_verdict_None. vm_compute. reflexivity.
    + destruct (Hsuccess v_opened) as (_ & _ & _ & Hcase).
      * vm_compute. reflexivity.
      * exact Hcase.
Defined.

(** C8, scenario 3: in round 1 side A submits first. *)
Lemma submit_argument_waits_witness :
  let out := @submit_argument sample_builtins good_env "c1" "A" plea "u1"
               w_opened in
  out.2 = inr (mkSubmitResult (mkArgument "c1" 1 "A" plea "u1") None true)
  ∧ oracle_calls out.1 = oracle_calls w_opened
  ∧ cases (db out.1) = cases (db w_opened)
  ∧ verdicts (db out.1) = verdicts (db w_opened)
  ∧ documents (db out.1) = documents (db w_opened)
  ∧ arguments (db out.1)
    = arguments (db w_opened) ++ [mkArgument "c1" 1 "A" plea "u1"].
Proof.
  apply (@submit_argument_waits sample_builtins good_env "c1" "A" "B" plea "u1"
           w_opened c_opened).
  - split; [vm_compute; reflexivity|]. split; [discriminate|].
    split; [discriminate|]. split; [reflexivity|].
    apply find_argument_None. vm_compute. reflexivity.
  - left. split; reflexivity.
  - apply find_argument_None. vm_compute. reflexivity.
Defined.

(** C9: the case is finalized and then patched to in_progress; the
    arguments of both sides are stored after that and bring a verdict
    for round 1, on a case that keeps its finalization time. *)
Theorem finalized_case_reopened :
  status <$> cases (db (@run sample_builtins
                          (opened ++ [ (good_env, FinalizeCase "c1" "u1") ])))
             !! "c1" = Some "finalized"
  ∧ let out_a := @submit_argument sample_builtins good_env "c1" "A" plea "u1"
                   (@run sample_builtins reopened) in
    let out_b := @submit_argument sample_builtins good_env "c1" "B" reply "u1"
                   out_a.1 in
    out_a.2 = inr (mkSubmitResult (mkArgument "c1" 1 "A" plea "u1") None true)
    ∧ arguments (db out_b.1)
      = [mkArgument "c1" 1 "A" plea "u1"; mkArgument "c1" 1 "B" reply "u1"]
    ∧ v_round <$> verdicts (db out_b.1) = [0; 1]
    ∧ finalized_at <$> cases (db out_b.1) !! "c1" = Some (Some 7).
Proof. vm_compute. repeat split. Qed.


(** The round-0 prompt has no such guard: a ready document without text
    makes it raise. *)
Example initial_prompt_raises_on_null_text :
  build_verdict_prompt (mkContext c_new [contract] [email] [] None) 0
  = inl (TypeError "'NoneType' object is not subscriptable").
Proof. vm_compute. reflexivity. Qed.

(** * The readers and the endpoints around the services *)

From stdpp Require Import sorting.

Local Open Scope Z_scope.
Local Open Scope string_scope.
Local Open Scope list_scope.

(** ** Definitions *)

(** [str.lower()] on ASCII text. *)
Definition ascii_lower (c : Ascii.ascii) : Ascii.ascii :=
  let n := Ascii.nat_of_ascii c in
  if (65 <=? n)%nat && (n <=? 90)%nat then Ascii.ascii_of_nat (n + 32) else c.

Fixpoint str_lower (s : string) : string :=
  match s with
  | EmptyString => EmptyString
  | String c rest => String (ascii_lower c) (str_lower rest)
  end.

(** [ORDER BY verdicts.round]; rows of equal round keep their order. *)
Definition by_round (v1 v2 : Verdict) : Prop := (v_round v1 ≤ v_round v2)%Z.

#[global] Instance by_round_dec : RelDecision by_round.
Proof. intros v1 v2. unfold by_round. apply _. Defined.

(** [VerdictOrchestrator.get_all_verdicts] *)
Definition get_all_verdicts (case_id : UUID) : M (list Verdict) :=
  query (λ d, merge_sort by_round (case_verdicts case_id d)).

(** The first lines of every endpoint: the case exists and the caller
    created it. *)
Definition owned_case (case_id current_user : UUID) : M Case :=
  row ← query (λ d, cases d !! case_id);
  match row with
  | None => raise (HTTPException 404 "Case not found")
  | Some case =>
      if decide (created_by case ≠ current_user) then
        raise (HTTPException 403 "Access denied")
      else mret case
  end.

(** *** The response schemas ([app/schemas/verdict.py]) *)

Record VerdictIssue := mkVerdictIssue {
  issue : string;
  finding : string;
  reasoning : string
}.

Record VerdictData := mkVerdictData {
  vd_summary : string;
  vd_winner : string;
  vd_confidence_score : Q;
  vd_issues : list VerdictIssue;
  vd_final_decision : string;
  vd_key_evidence_cited : list string
}.

(** [VerdictResponse], without the surrogate id and the creation time
    of the row. *)
Record VerdictResponse := mkVerdictResponse {
  vr_case_id : UUID;
  vr_round : Z;
  vr_verdict_json : VerdictData;
  vr_model_used : string;
  vr_tokens_used : option Z
}.

(** What pydantic does beyond the declarations of the schemas. *)
Class Schemas := {
  (** [ArgumentResponse.model_validate] on a row: [None], or the text
      of the [ValidationError]. *)
  argument_response : Argument → option string;
  (** A [float] field on a value that is neither an int nor a float
      (lax mode makes floats of some other values). *)
  lax_float : json → option Q;
  (** [str(e)] of the [ValidationError] that [VerdictResponse] raises
      on a row. *)
  verdict_error : Verdict → string
}.

Section VerdictSchemas.

Context `{Schemas}.

(** A required field typed [str]. *)
Definition str_field (k : string) (items : list (string * json))
  : option string :=
  match dict_get k items with
  | Some (JStr s) => Some s
  | _ => None
  end.

Definition str_item (v : json) : option string :=
  match v with
  | JStr s => Some s
  | _ => None
  end.

(** A field typed [List[T]] with [default_factory=list]. *)
Definition list_field {A} (item : json → option A) (k : string)
    (items : list (string * json)) : option (list A) :=
  match dict_get k items with
  | None => Some []
  | Some (JArr xs) => mapM item xs
  | Some _ => None
  end.

(** [confidence_score: float = Field(..., ge=0.0, le=1.0)] *)
Definition unit_float (v : json) : option Q :=
  q ← match v with
      | JInt n => Some (inject_Z n)
      | JFloat q => Some q
      | _ => lax_float v
      end;
  if Qle_bool 0 q && Qle_bool q 1 then Some q else None.

(** [VerdictIssue] on an item of [issues]. *)
Definition verdict_issue (v : json) : option VerdictIssue :=
  match v with
  | JObj items =>
      i ← str_field "issue" items;
      f ← str_field "finding" items;
      r ← str_field "reasoning" items;
      Some (mkVerdictIssue i f r)
  | _ => None
  end.

(** [VerdictData] on the value of the [verdict_json] column; the winner
    is held against the pattern [^(A|B|undecided)$]. *)
Definition verdict_data (v : json) : option VerdictData :=
  match v with
  | JObj items =>
      summary ← str_field "summary" items;
      winner ← str_field "winner" items;
      if decide (winner = "A" ∨ winner = "B" ∨ winner = "undecided") then
        score ← dict_get "confidence_score" items ≫= unit_float;
        issues ← list_field verdict_issue "issues" items;
        decision ← str_field "final_decision" items;
        cited ← list_field str_item "key_evidence_cited" items;
        Some (mkVerdictData summary winner score issues decision cited)
      else None
  | _ => None
  end.

(** [VerdictResponse] on a row ([from_attributes]): the response, or
    the text of the [ValidationError]. *)
Definition verdict_response (v : Verdict) : string + VerdictResponse :=
  match verdict_data (verdict_json v) with
  | Some data =>
      inr (mkVerdictResponse (v_case_id v) (v_round v) data (model_used v)
             (tokens_used v))
  | None => inl (verdict_error v)
  end.

(** [List[VerdictResponse]] on rows. *)
Fixpoint verdict_responses (vs : list Verdict)
  : string + list VerdictResponse :=
  match vs with
  | [] => inr []
  | v :: rest =>
      match verdict_response v with
      | inl msg => inl msg
      | inr r =>
          match verdict_responses rest with
          | inl msg => inl msg
          | inr rs => inr (r :: rs)
          end
      end
  end.

(** [response_model=...] on a route: FastAPI holds what the endpoint
    returns against the schema; a value the schema rejects is a
    [ResponseValidationError], which no handler catches and the server
    answers with status 500. *)
Definition response_model {A B} (schema : A → string + B) (a : A) : M B :=
  match schema a with
  | inl _ => raise (HTTPException 500 "Internal Server Error")
  | inr b => mret b
  end.

End VerdictSchemas.

(** [ArgumentCreate] of [app/schemas/argument.py], as the endpoint gets
    it. *)
Record ArgumentCreate := mkArgumentCreate {
  ac_side : string;
  ac_argument_text : string
}.

Record SubmitResponse := mkSubmitResponse {
  rsp_argument : Argument;
  rsp_verdict : option VerdictResponse;
  rsp_waiting_for_other_side : bool;
  rsp_message : string
}.

(** The status code [app/api/arguments.py] reads off the text of an
    exception. *)
Definition argument_error_status (error_msg : string) : Z :=
  let low := str_lower error_msg in
  if str_contains "not found" low then 404
  else if str_contains "already submitted" low then 409
  else if str_contains "finalized" low || str_contains "draft" low
          || str_contains "maximum rounds" low then 422
  else 500.

Module api_verdicts.
Section Endpoints.

Context `{Builtins} `{Schemas}.

(** [generate_initial_verdict] of [app/api/verdicts.py], a route with
    [response_model=VerdictResponse]. *)
Definition generate_initial_verdict (env : Env) (case_id current_user : UUID)
  : M VerdictResponse :=
  owned_case case_id current_user;;
  verdict ←
    try_except (generate_initial_verdict env case_id)
      (λ e, match e with
            | ValueError msg => raise (HTTPException 422 msg)
            | _ =>
                if str_contains "already exists" (exn_str e) then
                  raise (HTTPException 409 (exn_str e))
                else
                  raise (HTTPException 500
                           ("Failed to generate verdict: " +:+ exn_str e))
            end);
  response_model verdict_response verdict.

(** [get_all_verdicts] of [app/api/verdicts.py], a route with
    [response_model=List[VerdictResponse]]. *)
Definition get_all_verdicts (case_id current_user : UUID)
  : M (list VerdictResponse) :=
  owned_case case_id current_user;;
  verdicts ← get_all_verdicts case_id;
  response_model verdict_responses verdicts.

(** [get_verdict_by_round] of [app/api/verdicts.py], a route with
    [response_model=VerdictResponse]. *)
Definition get_verdict_by_round (case_id : UUID) (round : Z)
    (current_user : UUID) : M VerdictResponse :=
  if decide (round < 0 ∨ round > 5)%Z then
    raise (HTTPException 422 "Round must be between 0 and 5")
  else
    owned_case case_id current_user;;
    verdict ← get_verdict_by_round case_id round;
    match verdict with
    | None => raise (HTTPException 404
                       ("Verdict for round " +:+ pretty round +:+ " not found"))
    | Some v => response_model verdict_response v
    end.

End Endpoints.
End api_verdicts.

Module api_arguments.
Section Endpoints.

Context `{Builtins} `{Schemas}.

(** [submit_argument] of [app/api/arguments.py] *)
Definition submit_argument (env : Env) (case_id : UUID)
    (argument_data : ArgumentCreate) (current_user : UUID) : M SubmitResponse :=
  owned_case case_id current_user;;
  try_except
    (result ← submit_argument env case_id (ac_side argument_data)
                (ac_argument_text argument_data) current_user;
     match argument_response (res_argument result) with
     | Some msg => raise (ValueError msg)
     | None =>
         match res_verdict result with
         | Some v =>
             match verdict_response v with
             | inl msg => raise (ValueError msg)
             | inr r =>
                 mret (mkSubmitResponse (res_argument result) (Some r)
                         (waiting_for_other_side result)
                         "Argument submitted and verdict generated")
             end
         | None =>
             mret (mkSubmitResponse (res_argument result) None
                     (waiting_for_other_side result)
                     ("Argument submitted. Waiting for Side "
                      +:+ (if decide (ac_side argument_data = "A")
                           then "B" else "A")
                      +:+ " to submit."))
         end
     end)
    (λ e, raise (HTTPException (argument_error_status (exn_str e)) (exn_str e))).

End Endpoints.
End api_arguments.

(** The case a request is about. *)
Definition op_case (o : op) : option UUID :=
  match o with
  | CreateCase id _ _ _ | UpdateCase id _ _ | DeleteCase id _
  | GenerateInitialVerdict id | SubmitArgument id _ _ _ | FinalizeCase id _ =>
      Some id
  | SetDocuments _ => None
  end.

Definition case_arguments (case_id : UUID) (d : DB) : list Argument :=
  filter (λ a, arg_case_id a = case_id) (arguments d).

(** A world that some history of requests leads to. *)
Definition reachable `{Builtins} (w : World) : Prop := ∃ h, w = run h.

(** pydantic on the samples: their Argument rows come from valid
    requests, and the replies hold no value that lax mode would turn
    into a float. *)
Definition sample_schemas : Schemas :=
  {| argument_response := λ _, None;
     lax_float := λ _, None;
     verdict_error := λ _, "1 validation error for VerdictResponse" |}.

(** The case of the samples, finalized. *)
Definition w_finalized : World :=
  @run sample_builtins (opened ++ [ (good_env, FinalizeCase "c1" "u1") ]).

Definition c_finalized : Case := set_finalized 7 c_opened.

(** Round 1 with both arguments in and no verdict: the model was down
    when side B submitted. *)
Definition w_stuck : World :=
  @run sample_builtins
    (opened ++ [ (good_env, SubmitArgument "c1" "A" plea "u1");
                 (down_env, SubmitArgument "c1" "B" reply "u1") ]).

(** Round 1 adjudicated. *)
Definition w_round_2 : World :=
  @run sample_builtins
    (opened ++ [ (good_env, SubmitArgument "c1" "A" plea "u1");
                 (good_env, SubmitArgument "c1" "B" reply "u1") ]).

Definition round_1 : list (Env * op) :=
  opened ++ [ (good_env, SubmitArgument "c1" "A" plea "u1");
              (good_env, SubmitArgument "c1" "B" reply "u1") ].

Definition v_round_1 : Verdict :=
  mkVerdict "c1" 1 (reply_json "A" 1) "gpt-4o-mini" (Some 300).

Definition c_round_2 : Case := set_progress "in_progress" 2 7 c_opened.

(** A second case, of another user, next to the opened one. *)
Definition two_cases : list (Env * op) :=
  opened ++ [ (good_env, CreateCase "c2" "CAS-2025-000002" new_case "u2") ].

Definition c_second : Case :=
  mkCase "CAS-2025-000002" "T" None "civil" "India" "u2" "draft" 0 5 7 (Some 7)
         None.

(** The opened case with a ready document of side B that has no text. *)
Definition w_textless : World :=
  @run sample_builtins
    [ (good_env, CreateCase "c1" "CAS-2025-ABCDEF" new_case "u1");
      (good_env, SetDocuments [contract; email]) ].

Definition rename : CaseUpdate :=
  mkCaseUpdate (Some (Some "Renamed")) None None None None.

(** The model answers the round-0 request with a confidence of 5. *)
Definition sure_env : Env := answers (reply_text "A" "5") 7.

Definition v_sure : Verdict :=
  mkVerdict "c1" 0 (reply_json "A" 5) "gpt-4o-mini" (Some 300).

Definition w_sure : World :=
  @run sample_builtins
    [ (good_env, CreateCase "c1" "CAS-2025-ABCDEF" new_case "u1");
      (good_env, SetDocuments [contract; scan]);
      (sure_env, GenerateInitialVerdict "c1") ].

(** ** Properties *)

Section Coverage.

Context `{Builtins} `{Schemas}.

#[local] Arguments missing_fields : simpl never.
#[local] Arguments build_verdict_prompt : simpl never.
#[local] Arguments build_verdict_with_arguments_prompt : simpl never.
#[local] Arguments parse_verdict_json : simpl never.
#[local] Arguments pretty : simpl never.

(** *** One argument per side and round *)

(** Every way [submit_argument] can end. *)
Lemma submit_argument_outcome env case_id side txt user w :
  let out := submit_argument env case_id side txt user w in
  ((∃ e, out.2 = inl e) ∧ out.1 = w)
  ∨ ∃ c, admitted case_id side c w ∧
      let r := current_round c in
      let a := mkArgument case_id r side txt user in
      (¬ both_sides_in case_id r (add_argument a (db w))
       ∧ out = (with_argument a w, inr (mkSubmitResult a None true)))
      ∨ (both_sides_in case_id r (add_argument a (db w))
         ∧ (∃ e, out.2 = inl e) ∧ db out.1 = add_argument a (db w))
      ∨ (both_sides_in case_id r (add_argument a (db w))
         ∧ ∃ v, out.2 = inr (mkSubmitResult a (Some v) false)
                ∧ v_case_id v = case_id ∧ v_round v = r
                ∧ db out.1 = put_case case_id
                               (set_progress (status c) (r + 1) (now env) c)
                               (add_verdict v (add_argument a (db w)))).
Proof.
  intros out.
  assert (Hrejected :
    ∀ c, cases (db w) !! case_id = Some c →
         status c = "finalized" ∨ status c = "draft"
         ∨ current_round c >= max_rounds c
         ∨ is_Some (find_argument case_id (current_round c) side (db w)) →
         (∃ e, out.2 = inl e) ∧ out.1 = w).
  { intros c Hc Hgate. subst out. unfold submit_argument. unfold_m. simpl.
    rewrite Hc.
    destruct (decide (status c = "finalized")); [by split; [eexists|]|].
    destruct (decide (status c = "draft")); [by split; [eexists|]|].
    destruct (decide (current_round c >= max_rounds c)); [by split; [eexists|]|].
    destruct Hgate as [?|[?|[?|[a0 Ha0]]]]; try done. rewrite Ha0.
    by split; [eexists|]. }
  destruct (cases (db w) !! case_id) as [c|] eqn:Hc.
  2: { left. subst out. unfold submit_argument. unfold_m. simpl. rewrite Hc.
       by split; [eexists|]. }
  destruct (decide (status c = "finalized")); [left; eauto|].
  destruct (decide (status c = "draft")); [left; eauto|].
  destruct (decide (current_round c >= max_rounds c)); [left; eauto 6|].
  destruct (find_argument case_id (current_round c) side (db w)) eqn:Hfind;
    [left; apply (Hrejected c); eauto 6|].
  assert (Hadm : admitted case_id side c w).
  { repeat split; try done; [lia | by apply find_argument_None]. }
  right. exists c. split; [done|]. intros r a. subst out.
  rewrite (submit_argument_admitted env case_id side txt user w c Hadm).
  fold r a. change (db (with_argument a w)) with (add_argument a (db w)).
  case_decide as Hboth; [|by left].
  right.
  pose proof (generate_verdict_with_arguments_effect env case_id r
                (with_argument a w)) as Heff.
  destruct (generate_verdict_with_arguments env case_id r (with_argument a w))
    as [w2 [e|v]]; simpl in *.
  - destruct Heff as [(e' & _ & ->)|(v & Hv & _)]; [|discriminate].
    left. split; [done|]. split; [by eexists | done].
  - destruct Heff as [(e' & He & _)|(v' & Hv & -> & Hid & Hr)]; [discriminate|].
    injection Hv as <-. right. split; [done|]. by exists v.
Qed.

(** Arguments belong to an existing case and to a round the case has
    reached; no side has two arguments in a round; a verdict of round 1
    or later has the arguments of both sides behind it. *)
Definition arguments_ok (d : DB) : Prop :=
  (∀ a, a ∈ arguments d →
     ∃ c, cases d !! arg_case_id a = Some c
          ∧ (0 ≤ arg_round a ≤ current_round c)%Z
          ∧ (arg_round a < max_rounds c)%Z)
  ∧ (∀ id r s,
       (length (filter (λ a, arg_case_id a = id ∧ arg_round a = r ∧ arg_side a = s)
                       (arguments d)) ≤ 1)%nat)
  ∧ (∀ v, v ∈ verdicts d → (1 ≤ v_round v)%Z →
       both_sides_in (v_case_id v) (v_round v) d).

Lemma arguments_ok_empty : arguments_ok empty_db.
Proof.
  split; [|split]; simpl.
  - intros a Ha. by apply elem_of_nil in Ha.
  - intros. simpl. lia.
  - intros v Hv. by apply elem_of_nil in Hv.
Qed.

Lemma has_argument_ext d d' case_id r s :
  arguments d' = arguments d →
  has_argument case_id r s d' ↔ has_argument case_id r s d.
Proof. unfold has_argument. by intros ->. Qed.

Lemma arguments_ok_put d id c' :
  arguments_ok d →
  (∀ c, cases d !! id = Some c →
        (current_round c ≤ current_round c')%Z ∧ max_rounds c' = max_rounds c) →
  arguments_ok (put_case id c' d).
Proof.
  intros (Hown & Huniq & Hturn) Hc'. split; [|split].
  - intros a Ha. destruct (Hown a Ha) as (c & Hc & Hr & Hmax). simpl.
    rewrite lookup_insert. case_decide as Hid.
    + subst id. destruct (Hc' c Hc) as [Hle Heq]. exists c'.
      split; [done|]. split; lia.
    + by exists c.
  - apply Huniq.
  - intros v Hv Hr. apply (Hturn v Hv Hr).
Qed.

Lemma arguments_ok_add_verdict d v :
  arguments_ok d →
  ((1 ≤ v_round v)%Z → both_sides_in (v_case_id v) (v_round v) d) →
  arguments_ok (add_verdict v d).
Proof.
  intros (Hown & Huniq & Hturn) Hv. split; [|split].
  - apply Hown.
  - apply Huniq.
  - intros v0. simpl. rewrite elem_of_app, list_elem_of_singleton.
    intros [Hv0| ->] Hr; [apply (Hturn v0 Hv0 Hr) | apply (Hv Hr)].
Qed.

Lemma arguments_ok_add_argument d case_id c side txt user :
  consistent d → arguments_ok d →
  cases d !! case_id = Some c →
  (current_round c < max_rounds c)%Z →
  ¬ has_argument case_id (current_round c) side d →
  arguments_ok (add_argument (mkArgument case_id (current_round c) side txt user) d).
Proof.
  intros [Hok _] (Hown & Huniq & Hturn) Hc Hlt Hnew.
  destruct (Hok case_id c Hc) as (Hr & _ & _). split; [|split].
  - intros a. simpl. rewrite elem_of_app, list_elem_of_singleton.
    intros [Ha| ->]; [by apply Hown|]. exists c. simpl. split; [done|]. lia.
  - intros id r s. simpl. rewrite filter_app, length_app, filter_cons, filter_nil.
    case_decide as Hkey; [|specialize (Huniq id r s); simpl; lia].
    simpl in Hkey. destruct Hkey as (<- & <- & <-).
    replace (filter _ (arguments d)) with (@nil Argument); [simpl; lia|].
    symmetry. apply (filter_nil_iff _ _). intros a Ha Hka. apply Hnew.
    by exists a.
  - intros v Hv Hr1. destruct (Hturn v Hv Hr1) as [HA HB].
    split; apply has_argument_add; by left.
Qed.

Lemma length_filter_filter {A} (P Q : A → Prop) `{∀ x, Decision (P x)}
    `{∀ x, Decision (Q x)} (l : list A) :
  (length (filter P (filter Q l)) ≤ length (filter P l))%nat.
Proof.
  induction l as [|x l IH]; [done|]. rewrite !filter_cons.
  destruct (decide (Q x)), (decide (P x)); rewrite ?filter_cons;
    try (rewrite decide_True by done); try (rewrite decide_False by done);
    simpl; lia.
Qed.

Lemma arguments_ok_drop d id : arguments_ok d → arguments_ok (drop_case id d).
Proof.
  intros (Hown & Huniq & Hturn). split; [|split].
  - intros a. simpl. rewrite list_elem_of_filter. intros [Hne Ha].
    destruct (Hown a Ha) as (c & Hc & Hr). exists c.
    by rewrite lookup_delete_ne.
  - intros id0 r s. simpl.
    etransitivity; [apply length_filter_filter | apply Huniq].
  - intros v. simpl. rewrite list_elem_of_filter. intros [Hne Hv] Hr1.
    destruct (Hturn v Hv Hr1) as [(a & Ha & Hka) (b & Hb & Hkb)].
    destruct Hka as (Haid & Hka), Hkb as (Hbid & Hkb).
    split; [exists a | exists b]; (split; [|done]);
      apply list_elem_of_filter; (split; [congruence | done]).
Qed.

Lemma run_op_arguments_ok env o w :
  consistent (db w) → arguments_ok (db w) →
  arguments_ok (db (run_op env o w)).
Proof.
  intros Hd Ha. destruct o as [id number data user|id data user|id user|id
                               |id side txt user|id user|docs]; simpl.
  - destruct (create_case_effect env id number data user w)
      as [->|(c & Hnone & _ & Hr & Hmax & ->)]; [done|].
    apply arguments_ok_put; [done|]. intros c0 Hc0. congruence.
  - destruct (update_case_effect env id data user w)
      as [->|(c & c' & Hc & Hupd & ->)]; [done|].
    apply arguments_ok_put; [done|]. intros c0 Hc0.
    destruct (apply_update_keeps _ _ _ _ Hupd) as (Hr & Hmax & _).
    assert (c0 = c) as -> by congruence. split; [lia | done].
  - destruct (delete_case_effect id user w) as [->| ->]; [done|].
    by apply arguments_ok_drop.
  - destruct (generate_initial_verdict_effect env id w)
      as [(e & _ & ->)|(c & rq & resp & vd & _ & Hnone & Hc & _ & _ & ->)];
      [done|].
    pose proof (no_initial_verdict_round _ _ _ Hd Hc Hnone) as Hr0.
    apply arguments_ok_put.
    + apply arguments_ok_add_verdict; [done|]. simpl. lia.
    + intros c0 Hc0. simpl in Hc0. assert (c0 = c) as -> by congruence.
      simpl. split; [lia | done].
  - destruct (submit_argument_outcome env id side txt user w)
      as [[_ ->]|(c & Hadm & Hcases)]; [done|].
    destruct Hadm as (Hc & _ & _ & Hlt & Hnew).
    pose proof (arguments_ok_add_argument (db w) id c side txt user
                  Hd Ha Hc Hlt Hnew) as Ha1.
    destruct Hcases as [[_ ->]|[(_ & _ & ->)|(Hboth & v & _ & Hid & Hr & ->)]];
      [done|done|].
    apply arguments_ok_put.
    + apply arguments_ok_add_verdict; [done|]. intros _. by rewrite Hid, Hr.
    + intros c0 Hc0. simpl in Hc0. assert (c0 = c) as -> by congruence.
      simpl. split; [lia | done].
  - destruct (finalize_case_effect env id user w)
      as [(e & _ & ->)|(c & Hc & _ & _ & _ & _ & ->)]; [done|].
    apply arguments_ok_put; [done|]. intros c0 Hc0.
    assert (c0 = c) as -> by congruence. simpl. split; [lia | done].
  - done.
Qed.

Lemma foldl_run_arguments_ok (h : list (Env * op)) w :
  consistent (db w) → arguments_ok (db w) →
  arguments_ok (db (foldl (λ w eo, run_op eo.1 eo.2 w) w h)).
Proof.
  revert w. induction h as [|[env o] h IH]; intros w Hw Ha; [done|].
  simpl. apply IH; [by apply run_op_consistent | by apply run_op_arguments_ok].
Qed.

Lemma run_arguments_ok h : arguments_ok (db (run h)).
Proof.
  apply foldl_run_arguments_ok; [apply consistent_empty | apply arguments_ok_empty].
Qed.

(** X1. After any history of requests no side has two arguments for the
    same case and round. *)
Theorem argument_unique_per_side h case_id r side :
  (length (filter (λ a, arg_case_id a = case_id ∧ arg_round a = r
                        ∧ arg_side a = side)
                  (arguments (db (run h)))) ≤ 1)%nat.
Proof. apply (run_arguments_ok h). Qed.

(** X2. After any history every stored argument belongs to an existing
    case, and its round lies between 0 and the counter of the case and
    below [max_rounds]. *)
Theorem arguments_within_rounds h a :
  a ∈ arguments (db (run h)) →
  ∃ c, cases (db (run h)) !! arg_case_id a = Some c
       ∧ (0 ≤ arg_round a ≤ current_round c)%Z
       ∧ (arg_round a < max_rounds c)%Z.
Proof. apply (run_arguments_ok h). Qed.

(** X3. Turn-taking: after any history every verdict of round 1 or later
    has an argument of side A and one of side B for its case and round
    in the store. *)
Theorem verdict_follows_both_arguments h v :
  v ∈ verdicts (db (run h)) → (1 ≤ v_round v)%Z →
  both_sides_in (v_case_id v) (v_round v) (db (run h)).
Proof. apply (run_arguments_ok h). Qed.

(** *** Reading verdicts back *)

Lemma has_verdict_rounds d case_id c r :
  consistent d → cases d !! case_id = Some c →
  has_verdict case_id r d ↔ (0 ≤ r < current_round c)%Z.
Proof.
  intros [Hok _] Hc. destruct (Hok case_id c Hc) as (_ & _ & Hv).
  assert (Hmem : has_verdict case_id r d
                 ↔ r ∈ v_round <$> case_verdicts case_id d).
  { rewrite list_elem_of_fmap. unfold has_verdict, case_verdicts. split.
    - intros (v & Hin & Hid & Hr). exists v. split; [done|].
      by apply list_elem_of_filter.
    - intros (v & -> & Hin). apply list_elem_of_filter in Hin as [Hid Hin].
      by exists v. }
  rewrite Hmem, Hv, elem_of_seqZ. lia.
Qed.

Lemma owned_case_owner case_id user w c :
  cases (db w) !! case_id = Some c → created_by c = user →
  owned_case case_id user w = (w, inr c).
Proof.
  intros Hc Hown. unfold owned_case. unfold_m. simpl. rewrite Hc.
  rewrite decide_False; [done|]. intros Hne. by apply Hne.
Qed.

Lemma owned_case_stranger case_id user w c :
  cases (db w) !! case_id = Some c → created_by c ≠ user →
  owned_case case_id user w = (w, inl (HTTPException 403 "Access denied")).
Proof.
  intros Hc Hown. unfold owned_case. unfold_m. simpl. rewrite Hc.
  by rewrite decide_True.
Qed.

Lemma owned_case_unknown case_id user w :
  cases (db w) !! case_id = None →
  owned_case case_id user w = (w, inl (HTTPException 404 "Case not found")).
Proof. intros Hc. unfold owned_case. unfold_m. simpl. by rewrite Hc. Qed.

(** X4. The verdict endpoint, called by the owner after any history: a
    round outside 0..5 is a validation error; a round below the counter
    of the case has a stored verdict, which is answered as its
    [VerdictResponse] when it fits the schema and with status 500 when
    it does not; a round from the counter up to 5 is "not found".  The
    world is not changed. *)
Theorem verdict_lookup_by_round h case_id user c r :
  cases (db (run h)) !! case_id = Some c → created_by c = user →
  let out := api_verdicts.get_verdict_by_round case_id r user (run h) in
  out.1 = run h
  ∧ ((r < 0 ∨ r > 5)%Z →
     out.2 = inl (HTTPException 422 "Round must be between 0 and 5"))
  ∧ ((0 ≤ r < current_round c)%Z →
     ∃ v, v ∈ verdicts (db (run h)) ∧ v_case_id v = case_id ∧ v_round v = r
          ∧ out.2 = match verdict_data (verdict_json v) with
                    | Some data =>
                        inr (mkVerdictResponse case_id r data (model_used v)
                               (tokens_used v))
                    | None => inl (HTTPException 500 "Internal Server Error")
                    end)
  ∧ ((current_round c ≤ r ≤ 5)%Z →
     out.2 = inl (HTTPException 404
                    ("Verdict for round " +:+ pretty r +:+ " not found"))).
Proof.
  intros Hc Hown out. subst out. unfold api_verdicts.get_verdict_by_round.
  pose proof (has_verdict_rounds _ _ _ r (run_consistent h) Hc) as Hrounds.
  destruct (run_consistent h) as [Hok _].
  destruct (Hok case_id c Hc) as (Hbounds & Hmax & _). clear Hok.
  destruct (decide (r < 0 ∨ r > 5)%Z) as [Hout|Hin].
  { split; [done|]. split; [done|]. split; intros; lia. }
  unfold get_verdict_by_round. unfold_m.
  rewrite (owned_case_owner _ _ _ _ Hc Hown). simpl.
  destruct (find_verdict case_id r (db (run h))) as [v|] eqn:Hfind; simpl.
  - assert (Hhas : has_verdict case_id r (db (run h)))
      by (apply find_verdict_Some; by eexists).
    unfold find_verdict in Hfind. apply head_Some_elem_of in Hfind.
    apply list_elem_of_filter in Hfind as [[Hid Hr] Hv].
    unfold response_model, verdict_response. rewrite Hid, Hr.
    split; [by destruct (verdict_data (verdict_json v))|].
    split; [intros; lia|]. split.
    + intros _. exists v. repeat split; try done.
      by destruct (verdict_data (verdict_json v)).
    + intros Hge. apply Hrounds in Hhas. lia.
  - apply find_verdict_None in Hfind.
    split; [done|]. split; [intros; lia|]. split; [|done].
    intros Hlt. destruct Hfind. by apply Hrounds.
Qed.

#[local] Instance by_round_trans : Transitive by_round.
Proof. intros x y z. unfold by_round. lia. Qed.

#[local] Instance by_round_total : Total by_round.
Proof. intros x y. unfold by_round. lia. Qed.

Lemma rounds_in_sequence_sorted (l : list Verdict) m n :
  v_round <$> l = seqZ m n → Sorted by_round l.
Proof.
  revert m n. induction l as [|x l IH]; intros m n Hl; [constructor|].
  destruct (decide (0 < n)%Z) as [Hn|Hn].
  2: { rewrite seqZ_nil in Hl by lia. discriminate. }
  rewrite seqZ_cons in Hl by done. rewrite fmap_cons in Hl.
  injection Hl as Hx Hl. constructor; [by apply (IH _ _ Hl)|].
  destruct l as [|y l]; [constructor|]. constructor.
  destruct (decide (0 < Z.pred n)%Z) as [Hn'|Hn'].
  2: { rewrite seqZ_nil in Hl by lia. discriminate. }
  rewrite seqZ_cons in Hl by done. rewrite fmap_cons in Hl.
  injection Hl as Hy _. unfold by_round. lia.
Qed.

Lemma same_key_same_row {A} (f : A → Z) (l : list A) x y :
  NoDup (f <$> l) → x ∈ l → y ∈ l → f x = f y → x = y.
Proof.
  induction l as [|z l IH]; [by intros _ ?%elem_of_nil|].
  rewrite fmap_cons, NoDup_cons. intros [Hz Hl] Hx Hy Hf.
  apply elem_of_cons in Hx as [->|Hx], Hy as [->|Hy]; [done| | |by apply IH].
  - destruct Hz. rewrite Hf. apply list_elem_of_fmap. by exists y.
  - destruct Hz. rewrite <- Hf. apply list_elem_of_fmap. by exists x.
Qed.

Lemma verdict_responses_rows (vs : list Verdict) rs :
  verdict_responses vs = inr rs →
  vr_round <$> rs = v_round <$> vs ∧ vr_case_id <$> rs = v_case_id <$> vs.
Proof.
  revert rs. induction vs as [|v vs IH]; intros rs; simpl.
  - by intros [= <-].
  - unfold verdict_response.
    destruct (verdict_data (verdict_json v)); [|discriminate].
    destruct (verdict_responses vs) as [msg|rs']; [discriminate|].
    intros [= <-]. destruct (IH rs' eq_refl) as [Hr Hi].
    rewrite !fmap_cons, Hr, Hi. done.
Qed.

Lemma verdict_responses_rejects (vs : list Verdict) :
  (∃ msg, verdict_responses vs = inl msg)
  ↔ ∃ v, v ∈ vs ∧ verdict_data (verdict_json v) = None.
Proof.
  induction vs as [|v vs IH]; simpl.
  - split; [by intros [? ?] | by intros (? & ?%elem_of_nil & _)].
  - unfold verdict_response.
    destruct (verdict_data (verdict_json v)) as [data|] eqn:Hv.
    + destruct (verdict_responses vs) as [msg|rs].
      * split; [|by eexists]. intros _.
        destruct (proj1 IH) as (v' & Hin & Hv'); [by eexists|].
        exists v'. split; [by apply list_elem_of_further | done].
      * split; [by intros [? ?]|].
        intros (v' & Hin & Hv'). apply elem_of_cons in Hin as [->|Hin];
          [congruence|].
        destruct (proj2 IH) as [? ?]; [by exists v' | done].
    + split; [|by eexists]. intros _. exists v.
      split; [apply list_elem_of_here | done].
Qed.

(** X5. The list endpoint, called by the owner after any history, reads
    the verdicts of the case in the order they were made, of rounds 0,
    1, ..., current_round - 1, and does not change the world.  It
    answers with their [VerdictResponse]s, in that order, when every one
    of them fits the schema, and with status 500 as soon as one does
    not. *)
Theorem all_verdicts_in_round_order h case_id user c :
  cases (db (run h)) !! case_id = Some c → created_by c = user →
  let rows := case_verdicts case_id (db (run h)) in
  api_verdicts.get_all_verdicts case_id user (run h)
  = (run h, match verdict_responses rows with
            | inr rs => inr rs
            | inl _ => inl (HTTPException 500 "Internal Server Error")
            end)
  ∧ v_round <$> rows = seqZ 0 (current_round c)
  ∧ (∀ rs, verdict_responses rows = inr rs →
           vr_round <$> rs = seqZ 0 (current_round c)
           ∧ Forall (λ r, vr_case_id r = case_id) rs)
  ∧ ((∃ msg, verdict_responses rows = inl msg)
     ↔ ∃ v, v ∈ rows ∧ verdict_data (verdict_json v) = None).
Proof.
  intros Hc Hown rows. destruct (run_consistent h) as [Hok _].
  destruct (Hok case_id c Hc) as (_ & _ & Hv).
  split; [|split; [done|split]].
  - unfold api_verdicts.get_all_verdicts, get_all_verdicts. unfold_m.
    rewrite (owned_case_owner _ _ _ _ Hc Hown). simpl.
    assert (Hsort : merge_sort by_round (case_verdicts case_id (db (run h)))
                    = rows).
    { fold rows in Hv |- *. apply (Sorted_unique_strong by_round).
      - intros x1 x2 Hx1 Hx2 H12 H21.
        apply (same_key_same_row v_round rows); try done.
        + rewrite Hv. apply NoDup_seqZ.
        + by rewrite <- (merge_sort_Permutation by_round rows).
        + unfold by_round in *. lia.
      - apply (Sorted_merge_sort by_round).
      - by apply (rounds_in_sequence_sorted rows 0 (current_round c)).
      - apply merge_sort_Permutation. }
    rewrite Hsort. unfold response_model.
    by destruct (verdict_responses rows).
  - intros rs Hrs. destruct (verdict_responses_rows rows rs Hrs) as [Hr Hid].
    split; [by rewrite Hr|].
    apply Forall_forall. intros r Hin.
    assert (Hmem : vr_case_id r ∈ v_case_id <$> rows).
    { rewrite <- Hid. apply list_elem_of_fmap. by exists r. }
    apply list_elem_of_fmap in Hmem as (v & -> & Hvin).
    by apply list_elem_of_filter in Hvin as [? _].
  - apply verdict_responses_rejects.
Qed.

(** *** Requests to the model *)

Lemma generate_verdict_with_arguments_request env case_id r w :
  let out := generate_verdict_with_arguments env case_id r w in
  oracle_calls out.1 = oracle_calls w
  ∨ ∃ p, oracle_calls out.1
         = oracle_calls w ++ [mkRequest judge_of_arguments p 2500].
Proof.
  unfold generate_verdict_with_arguments, chat_completions_create, commit_verdict.
  unfold_m. simpl.
  destruct (cases (db w) !! case_id) as [c|]; simpl; [|by left].
  destruct (build_verdict_with_arguments_prompt _ _ _ _ _ _ _) as [e|p]; simpl;
    [by left|].
  right. exists p.
  destruct (oracle env _) as [e|resp]; simpl; [done|].
  destruct (json_loads (content resp)) as [msg|vd]; simpl; [done|].
  destruct (missing_fields required_fields vd) as [e|[|m ms]]; simpl; [done| |done].
  by destruct (verdict_commit_error env).
Qed.

(** X6. One call of [submit_argument] sends at most one request to the
    model, and it sends one only past the gates with the arguments of
    both sides in the store; the request asks for at most 2500 tokens
    under the system text of the argument rounds. *)
Theorem submit_argument_requests env case_id side txt user w :
  let out := submit_argument env case_id side txt user w in
  oracle_calls out.1 = oracle_calls w
  ∨ ∃ c p, admitted case_id side c w
           ∧ both_sides_in case_id (current_round c) (db out.1)
           ∧ oracle_calls out.1
             = oracle_calls w ++ [mkRequest judge_of_arguments p 2500].
Proof.
  intros out.
  destruct (submit_argument_outcome env case_id side txt user w)
    as [[_ Hw]|(c & Hadm & Hcases)]; [left; fold out in Hw; by rewrite Hw|].
  cbv zeta in Hcases. fold out in Hcases.
  set (a := mkArgument case_id (current_round c) side txt user) in *.
  destruct Hcases as [[_ Hout]|Hboth]; [left; by rewrite Hout|].
  assert (Hin : both_sides_in case_id (current_round c) (db out.1)).
  { destruct Hboth as [(Hb & _ & ->)|(Hb & v & _ & _ & _ & ->)]; exact Hb. }
  assert (Hcalls : oracle_calls out.1
            = oracle_calls (generate_verdict_with_arguments env case_id
                              (current_round c) (with_argument a w)).1).
  { subst out.
    rewrite (submit_argument_admitted env case_id side txt user w c Hadm).
    fold a. rewrite decide_True
      by (destruct Hboth as [(Hb & _)|(Hb & _)]; exact Hb).
    by destruct (generate_verdict_with_arguments env case_id (current_round c)
                   (with_argument a w)) as [w2 [e|v]]. }
  destruct (generate_verdict_with_arguments_request env case_id
              (current_round c) (with_argument a w)) as [Hsame|[p Hp]].
  - left. by rewrite Hcalls, Hsame.
  - right. exists c, p. split; [done|]. split; [done|]. by rewrite Hcalls, Hp.
Qed.

Lemma summaries_1000_raises docs e :
  summaries_1000 docs = inl e
  ↔ e = TypeError "'NoneType' object is not subscriptable"
    ∧ ∃ d, d ∈ docs ∧ full_text d = None.
Proof.
  revert e. induction docs as [|d docs IH]; intros e.
  { simpl. split; [discriminate | by intros (_ & d & ?%elem_of_nil & _)]. }
  cbn [summaries_1000]. unfold doc_summary_1000.
  destruct (full_text d) as [t|] eqn:Ht.
  - destruct (summaries_1000 docs) as [e'|ss].
    + destruct (proj1 (IH e') eq_refl) as (-> & d' & Hd' & Hnull). split.
      * intros [= <-]. split; [done|]. exists d'. split; [by right | done].
      * by intros (-> & _).
    + split; [discriminate|]. intros (-> & d' & Hd' & Hnull).
      apply elem_of_cons in Hd' as [->|Hd']; [congruence|].
      assert (Hfalse : @inr exn (list string) ss = inl
                (TypeError "'NoneType' object is not subscriptable"))
        by (apply IH; eauto).
      discriminate Hfalse.
  - split; [intros [= <-]; split; [done|]; exists d; split; [by left | done]|].
    by intros (-> & _).
Qed.

Lemma build_verdict_prompt_raises context round_number e :
  build_verdict_prompt context round_number = inl e
  ↔ e = TypeError "'NoneType' object is not subscriptable"
    ∧ ∃ d, d ∈ side_a_docs context ++ side_b_docs context
           ∧ full_text d = None.
Proof.
  unfold build_verdict_prompt.
  pose proof (summaries_1000_raises (side_a_docs context)) as HA.
  pose proof (summaries_1000_raises (side_b_docs context)) as HB.
  destruct (summaries_1000 (side_a_docs context)) as [ea|sa].
  - split.
    + intros [= <-]. destruct (proj1 (HA ea) eq_refl) as (-> & d & Hd & Hnull).
      split; [done|]. exists d. split; [apply elem_of_app; by left | done].
    + intros (-> & _). f_equal. by destruct (proj1 (HA ea) eq_refl).
  - destruct (summaries_1000 (side_b_docs context)) as [eb|sb].
    + split.
      * intros [= <-].
        destruct (proj1 (HB eb) eq_refl) as (-> & d & Hd & Hnull).
        split; [done|]. exists d. split; [apply elem_of_app; by right | done].
      * intros (-> & _). f_equal. by destruct (proj1 (HB eb) eq_refl).
    + split; [discriminate|]. intros (-> & d & Hd & Hnull).
      apply elem_of_app in Hd as [Hd|Hd].
      * assert (Hfalse : @inr exn (list string) sa = inl
                  (TypeError "'NoneType' object is not subscriptable"))
          by (apply HA; eauto).
        discriminate Hfalse.
      * assert (Hfalse : @inr exn (list string) sb = inl
                  (TypeError "'NoneType' object is not subscriptable"))
          by (apply HB; eauto).
        discriminate Hfalse.
Qed.

(** X7. The round-0 prompt has no guard on a null text:
    [build_verdict_prompt] raises a [TypeError] exactly when one of the
    documents it is given has no text, and returns a prompt otherwise. *)
Theorem initial_prompt_needs_text context round_number :
  (∀ e, build_verdict_prompt context round_number = inl e
        ↔ e = TypeError "'NoneType' object is not subscriptable"
          ∧ ∃ d, d ∈ side_a_docs context ++ side_b_docs context
                 ∧ full_text d = None)
  ∧ ((∀ d, d ∈ side_a_docs context ++ side_b_docs context →
          is_Some (full_text d)) →
     ∃ p, build_verdict_prompt context round_number = inr p).
Proof.
  split; [intros e; apply build_verdict_prompt_raises|].
  intros Hall. destruct (build_verdict_prompt context round_number) as [e|p] eqn:Hp;
    [|by eexists].
  apply build_verdict_prompt_raises in Hp as (_ & d & Hd & Hnull).
  destruct (Hall d Hd) as [t Ht]. congruence.
Qed.

(** The context [generate_initial_verdict] works from. *)
Definition context_of (case_id : UUID) (c : Case) (d : DB) : Context :=
  mkContext c (docs_of_side "A" (ready_documents case_id d))
            (docs_of_side "B" (ready_documents case_id d)) [] None.

(** X8. [generate_initial_verdict] gives up before it reaches the model,
    leaving the store and the request log as they were, when the round-0
    verdict exists, the case is unknown, a side has no ready document,
    or a ready document of side A or B has no text; in the last case the
    [TypeError] of the prompt comes out as it is. *)
Theorem initial_verdict_early_exits env case_id w :
  let out := generate_initial_verdict env case_id w in
  let docs := ready_documents case_id (db w) in
  (has_verdict case_id 0 (db w) ∨ cases (db w) !! case_id = None
   ∨ docs_of_side "A" docs = [] ∨ docs_of_side "B" docs = []
   ∨ (∃ d, d ∈ docs_of_side "A" docs ++ docs_of_side "B" docs
           ∧ full_text d = None) →
   out.1 = w ∧ ∃ e, out.2 = inl e)
  ∧ (∀ c, cases (db w) !! case_id = Some c →
       ¬ has_verdict case_id 0 (db w) →
       docs_of_side "A" docs ≠ [] → docs_of_side "B" docs ≠ [] →
       (∃ d, d ∈ docs_of_side "A" docs ++ docs_of_side "B" docs
             ∧ full_text d = None) →
       out = (w, inl (TypeError "'NoneType' object is not subscriptable"))).
Proof.
  intros out docs.
  assert (Hnull : ∀ c, cases (db w) !! case_id = Some c →
       ¬ has_verdict case_id 0 (db w) →
       docs_of_side "A" docs ≠ [] → docs_of_side "B" docs ≠ [] →
       (∃ d, d ∈ docs_of_side "A" docs ++ docs_of_side "B" docs
             ∧ full_text d = None) →
       out = (w, inl (TypeError "'NoneType' object is not subscriptable"))).
  { intros c Hc Hno HA HB Hd. apply find_verdict_None in Hno.
    assert (Hp : build_verdict_prompt (context_of case_id c (db w)) 0
                 = inl (TypeError "'NoneType' object is not subscriptable"))
      by (by apply build_verdict_prompt_raises).
    subst out. unfold generate_initial_verdict, fetch_case_context.
    unfold_m. simpl. rewrite Hno, Hc. simpl. fold docs.
    unfold validate_documents. simpl.
    destruct (docs_of_side "A" docs) as [|a la] eqn:HdA; [done|].
    destruct (docs_of_side "B" docs) as [|b lb] eqn:HdB; [done|]. simpl.
    unfold context_of in Hp. fold docs in Hp. rewrite HdA, HdB in Hp.
    by rewrite Hp. }
  split; [|exact Hnull].
  intros Hearly.
  destruct (find_verdict case_id 0 (db w)) as [v0|] eqn:Hv0.
  { subst out. unfold generate_initial_verdict. unfold_m. simpl. rewrite Hv0.
    split; [done | by eexists]. }
  destruct (cases (db w) !! case_id) as [c|] eqn:Hc.
  2: { subst out. unfold generate_initial_verdict, fetch_case_context.
       unfold_m. simpl. rewrite Hv0, Hc. split; [done | by eexists]. }
  destruct (decide (docs_of_side "A" docs = [])) as [HA|HA].
  { subst out. unfold generate_initial_verdict, fetch_case_context.
    unfold_m. simpl. rewrite Hv0, Hc. simpl. fold docs.
    unfold validate_documents. simpl. rewrite HA. split; [done | by eexists]. }
  destruct (decide (docs_of_side "B" docs = [])) as [HB|HB].
  { subst out. unfold generate_initial_verdict, fetch_case_context.
    unfold_m. simpl. rewrite Hv0, Hc. simpl. fold docs.
    unfold validate_documents. simpl. rewrite HB.
    destruct (docs_of_side "A" docs); [done|]. split; [done | by eexists]. }
  apply find_verdict_None in Hv0.
  destruct Hearly as [Hv|[?|[?|[?|Hd]]]]; try done.
  rewrite (Hnull c eq_refl Hv0 HA HB Hd). split; [done | by eexists].
Qed.

(** X9. When [generate_initial_verdict] returns a verdict, it sent
    exactly one request (the round-0 prompt, at most 2000 tokens, the
    system text of the evidence judge) and the answer to it parsed to a
    dict with the six required fields and a winner among "A", "B" and
    "undecided"; the verdict holds that dict unchanged, with the model
    name and the token count of the answer. *)
Theorem initial_verdict_success env case_id w v :
  (generate_initial_verdict env case_id w).2 = inr v →
  ∃ c p resp items winner,
    cases (db w) !! case_id = Some c
    ∧ build_verdict_prompt (context_of case_id c (db w)) 0 = inr p
    ∧ oracle_calls (generate_initial_verdict env case_id w).1
      = oracle_calls w ++ [mkRequest judge_of_evidence p 2000]
    ∧ oracle env (mkRequest judge_of_evidence p 2000) = inr resp
    ∧ json_loads (content resp) = inr (JObj items)
    ∧ v = mkVerdict case_id 0 (JObj items) "gpt-4o-mini" (total_tokens resp)
    ∧ (∀ f, f ∈ required_fields → is_Some (dict_get f items))
    ∧ dict_get "winner" items = Some (JStr winner) ∧ a_winner winner.
Proof.
  unfold generate_initial_verdict, fetch_case_context, chat_completions_create,
    commit_verdict.
  unfold_m. simpl.
  destruct (find_verdict case_id 0 (db w)) as [v0|] eqn:Hv0; simpl; [done|].
  destruct (cases (db w) !! case_id) as [c|] eqn:Hc; simpl; [|done].
  destruct (validate_documents _) as [e|[]]; simpl; [done|].
  fold (context_of case_id c (db w)).
  destruct (build_verdict_prompt _ _) as [e|p] eqn:Hp; simpl; [done|].
  destruct (oracle env _) as [e|resp] eqn:Horacle; simpl; [done|].
  destruct (parse_verdict_json (content resp)) as [e|vd] eqn:Hparse; simpl;
    [done|].
  apply parse_verdict_json_accepts in Hparse
    as (Hloads & items & winner & -> & Hall & Hw & Hwin).
  destruct (verdict_commit_error env); simpl; [done|].
  intros [= <-]. by exists c, p, resp, items, winner.
Qed.

(** *** Case rows under the case service *)

Definition case_documents (case_id : UUID) (d : DB) : list Document :=
  filter (λ x, doc_case_id x = case_id) (documents d).

Lemma filter_none {A} (P : A → Prop) `{∀ x, Decision (P x)} (l : list A) :
  filter P (filter (λ x, ¬ P x) l) = [].
Proof.
  apply (filter_nil_iff _ _). intros x Hx HP.
  apply list_elem_of_filter in Hx as [Hn _]. by apply Hn.
Qed.

Lemma filter_other {A} (f : A → UUID) (id id' : UUID) (l : list A) :
  id' ≠ id →
  filter (λ x, f x = id') (filter (λ x, f x ≠ id) l) = filter (λ x, f x = id') l.
Proof. intros Hne. apply list_filter_filter_l. intros x Hx. congruence. Qed.

(** X10. [delete_case] asked by anyone but the creator, or for an
    unknown case, returns False and changes nothing.  Asked by the
    creator it returns True and removes the case row together with every
    document, argument and verdict of the case; the rows of every other
    case stay as they are. *)
Theorem delete_case_cascade case_id user w :
  let out := delete_case case_id user w in
  ((cases (db w) !! case_id = None
    ∨ ∃ c, cases (db w) !! case_id = Some c ∧ created_by c ≠ user) →
   out = (w, inr false))
  ∧ ((∃ c, cases (db w) !! case_id = Some c ∧ created_by c = user) →
     out.2 = inr true
     ∧ oracle_calls out.1 = oracle_calls w
     ∧ cases (db out.1) !! case_id = None
     ∧ case_documents case_id (db out.1) = []
     ∧ case_arguments case_id (db out.1) = []
     ∧ case_verdicts case_id (db out.1) = []
     ∧ ∀ id', id' ≠ case_id →
         cases (db out.1) !! id' = cases (db w) !! id'
         ∧ case_documents id' (db out.1) = case_documents id' (db w)
         ∧ case_arguments id' (db out.1) = case_arguments id' (db w)
         ∧ case_verdicts id' (db out.1) = case_verdicts id' (db w)).
Proof.
  intros out. subst out. unfold delete_case, get_case_by_id. unfold_m. simpl.
  split.
  - intros [Hnone|(c & Hc & Hother)]; [by rewrite Hnone|].
    rewrite Hc. by rewrite decide_False.
  - intros (c & Hc & Hown). rewrite Hc. rewrite decide_True by done. simpl.
    split; [done|]. split; [done|]. split; [by rewrite lookup_delete_eq|].
    unfold case_documents, case_arguments, case_verdicts. simpl.
    split; [apply (filter_none (λ x, doc_case_id x = case_id))|].
    split; [apply (filter_none (λ x, arg_case_id x = case_id))|].
    split; [apply (filter_none (λ x, v_case_id x = case_id))|].
    intros id' Hne. rewrite lookup_delete_ne by done.
    split; [done|]. split; [by apply filter_other|].
    split; by apply filter_other.
Qed.

Lemma apply_update_frame data t c c' :
  apply_update data t c = Some c' →
  current_round c' = current_round c ∧ max_rounds c' = max_rounds c
  ∧ case_number c' = case_number c ∧ created_by c' = created_by c
  ∧ created_at c' = created_at c ∧ finalized_at c' = finalized_at c
  ∧ updated_at c' = Some t.
Proof.
  unfold apply_update. intros Hc'.
  destruct (set_required (upd_title data) _); [|done].
  destruct (set_required (upd_case_type data) _); [|done].
  destruct (set_required (upd_jurisdiction data) _); [|done].
  destruct (set_required (upd_status data) _); [|done].
  by injection Hc' as <-.
Qed.

(** X11. [update_case] asked by anyone but the creator, or for an
    unknown case, returns None and changes nothing.  In every case it
    leaves the documents, arguments and verdicts alone, it touches no
    other case row, and on the row of the case it never changes the
    round counter, the round limit, the case number, the creator, the
    creation time or the finalization time. *)
Theorem update_case_frame env case_id data user w :
  let out := update_case env case_id data user w in
  ((cases (db w) !! case_id = None
    ∨ ∃ c, cases (db w) !! case_id = Some c ∧ created_by c ≠ user) →
   out = (w, inr None))
  ∧ documents (db out.1) = documents (db w)
  ∧ arguments (db out.1) = arguments (db w)
  ∧ verdicts (db out.1) = verdicts (db w)
  ∧ oracle_calls out.1 = oracle_calls w
  ∧ ∀ id c, cases (db w) !! id = Some c →
      ∃ c', cases (db out.1) !! id = Some c'
            ∧ (id ≠ case_id → c' = c)
            ∧ current_round c' = current_round c
            ∧ max_rounds c' = max_rounds c
            ∧ case_number c' = case_number c
            ∧ created_by c' = created_by c
            ∧ created_at c' = created_at c
            ∧ finalized_at c' = finalized_at c.
Proof.
  intros out. subst out. unfold update_case, get_case_by_id. unfold_m. simpl.
  split.
  { intros [Hnone|(c & Hc & Hother)]; [by rewrite Hnone|].
    rewrite Hc. by rewrite decide_False. }
  destruct (cases (db w) !! case_id) as [c0|] eqn:Hc0; simpl.
  2: { repeat split; try done. intros id c Hc. by exists c. }
  destruct (decide (created_by c0 = user)); simpl.
  2: { repeat split; try done. intros id c Hc. by exists c. }
  destruct (apply_update data (now env) c0) as [c0'|] eqn:Hupd; simpl.
  2: { repeat split; try done. intros id c Hc. by exists c. }
  repeat split; try done. intros id c Hc. rewrite lookup_insert.
  case_decide as Hid.
  - subst id. assert (c = c0) as -> by congruence. exists c0'.
    destruct (apply_update_frame _ _ _ _ Hupd) as (? & ? & ? & ? & ? & ? & _).
    by repeat split.
  - exists c. by repeat split.
Qed.

(** *** One case at a time *)

(** Everything the store holds about a case. *)
Definition case_view (case_id : UUID) (d : DB)
  : option Case * list Document * list Argument * list Verdict :=
  (cases d !! case_id, case_documents case_id d, case_arguments case_id d,
   case_verdicts case_id d).

Lemma case_view_put id c' d id' :
  id' ≠ id → case_view id' (put_case id c' d) = case_view id' d.
Proof.
  intros Hne. unfold case_view, put_case, case_documents, case_arguments,
    case_verdicts. simpl. by rewrite lookup_insert_ne.
Qed.

Lemma case_view_add_argument a d id' :
  id' ≠ arg_case_id a → case_view id' (add_argument a d) = case_view id' d.
Proof.
  intros Hne. unfold case_view, case_documents, case_arguments, case_verdicts.
  simpl. rewrite filter_app, filter_cons, filter_nil.
  rewrite decide_False by (simpl; congruence). by rewrite app_nil_r.
Qed.

Lemma case_view_add_verdict v d id' :
  id' ≠ v_case_id v → case_view id' (add_verdict v d) = case_view id' d.
Proof.
  intros Hne. unfold case_view, case_documents, case_arguments, case_verdicts.
  simpl. rewrite filter_app, filter_cons, filter_nil.
  rewrite decide_False by (simpl; congruence). by rewrite app_nil_r.
Qed.

Lemma case_view_drop id d id' :
  id' ≠ id → case_view id' (drop_case id d) = case_view id' d.
Proof.
  intros Hne. unfold case_view, case_documents, case_arguments, case_verdicts.
  simpl. rewrite lookup_delete_ne by done.
  by rewrite !filter_other.
Qed.

(** X12. A request about one case leaves every other case as it was:
    its row, its documents, its arguments and its verdicts. *)
Theorem other_cases_untouched env o w case_id id' :
  op_case o = Some case_id → id' ≠ case_id →
  case_view id' (db (run_op env o w)) = case_view id' (db w).
Proof.
  intros Hop Hne.
  destruct o as [id number data user|id data user|id user|id
                 |id side txt user|id user|docs]; simpl in Hop;
    [injection Hop as ->..|discriminate]; simpl.
  - destruct (create_case_effect env case_id number data user w)
      as [->|(c & _ & _ & _ & _ & ->)]; [done|]. by apply case_view_put.
  - destruct (update_case_effect env case_id data user w)
      as [->|(c & c' & _ & _ & ->)]; [done|]. by apply case_view_put.
  - destruct (delete_case_effect case_id user w) as [->| ->]; [done|].
    by apply case_view_drop.
  - destruct (generate_initial_verdict_effect env case_id w)
      as [(e & _ & ->)|(c & rq & resp & vd & _ & _ & _ & _ & _ & ->)]; [done|].
    rewrite case_view_put by done. by apply case_view_add_verdict.
  - destruct (submit_argument_outcome env case_id side txt user w)
      as [[_ ->]|(c & _ & Hcases)]; [done|].
    destruct Hcases as [[_ ->]|[(_ & _ & ->)|(_ & v & _ & Hid & _ & ->)]].
    + by apply case_view_add_argument.
    + by apply case_view_add_argument.
    + rewrite case_view_put by done.
      rewrite case_view_add_verdict by congruence.
      by apply case_view_add_argument.
  - destruct (finalize_case_effect env case_id user w)
      as [(e & _ & ->)|(c & _ & _ & _ & _ & _ & ->)]; [done|].
    by apply case_view_put.
Qed.

(** What one request does to the counter and the verdicts of a case. *)
Definition round_step (case_id : UUID) (c c' : Case) (d d' : DB) : Prop :=
  max_rounds c' = max_rounds c
  ∧ ((current_round c' = current_round c
      ∧ case_verdicts case_id d' = case_verdicts case_id d)
     ∨ (current_round c' = current_round c + 1
        ∧ ∃ v, v_round v = current_round c
               ∧ case_verdicts case_id d' = case_verdicts case_id d ++ [v])).

Lemma round_step_put d id c0' case_id c c' :
  cases d !! case_id = Some c →
  cases (put_case id c0' d) !! case_id = Some c' →
  (id = case_id → current_round c0' = current_round c
                  ∧ max_rounds c0' = max_rounds c) →
  round_step case_id c c' d (put_case id c0' d).
Proof.
  intros Hc Hc' Hsame. simpl in Hc'. rewrite lookup_insert in Hc'.
  case_decide as Hid.
  - injection Hc' as <-. destruct (Hsame Hid) as [Hr Hmax].
    split; [done|]. by left.
  - assert (c' = c) as -> by congruence. split; [done|]. by left.
Qed.

Lemma round_step_verdict d id c0 c0' v case_id c c' :
  cases d !! id = Some c0 →
  v_case_id v = id → v_round v = current_round c0 →
  current_round c0' = current_round c0 + 1 → max_rounds c0' = max_rounds c0 →
  cases d !! case_id = Some c →
  cases (put_case id c0' (add_verdict v d)) !! case_id = Some c' →
  round_step case_id c c' d (put_case id c0' (add_verdict v d)).
Proof.
  intros Hc0 Hvid Hvr Hr' Hmax' Hc Hc'. simpl in Hc'.
  rewrite lookup_insert in Hc'.
  unfold round_step.
  change (case_verdicts case_id (put_case id c0' (add_verdict v d)))
    with (case_verdicts case_id (add_verdict v d)).
  rewrite case_verdicts_add. case_decide as Hid.
  - injection Hc' as <-. subst case_id. assert (c = c0) as -> by congruence.
    split; [done|]. right. split; [done|]. exists v.
    by rewrite decide_True.
  - assert (c' = c) as -> by congruence. split; [done|]. left.
    split; [done|]. rewrite decide_False by congruence. by rewrite app_nil_r.
Qed.

(** X13. After any history, one more request either leaves the counter
    and the verdicts of a case as they are, or moves the counter up by
    exactly one and adds exactly one verdict, numbered with the old
    counter; the round limit never changes. *)
Theorem counter_moves_with_verdict h env o case_id c c' :
  cases (db (run h)) !! case_id = Some c →
  cases (db (run_op env o (run h))) !! case_id = Some c' →
  round_step case_id c c' (db (run h)) (db (run_op env o (run h))).
Proof.
  pose proof (run_consistent h) as Hd. set (w := run h) in *.
  intros Hc Hc'.
  assert (Hsame : ∀ d', cases d' = cases (db w) → verdicts d' = verdicts (db w) →
                        cases d' !! case_id = Some c' →
                        round_step case_id c c' (db w) d').
  { intros d' Hcs Hvs Hl. rewrite Hcs in Hl.
    assert (c' = c) as -> by congruence. split; [done|]. left.
    split; [done|]. unfold case_verdicts. by rewrite Hvs. }
  destruct o as [id number data user|id data user|id user|id
                 |id side txt user|id user|docs]; simpl in *.
  - destruct (create_case_effect env id number data user w)
      as [Heq|(c0 & Hnone & _ & _ & _ & Heq)]; rewrite Heq in *;
      [by apply Hsame|].
    apply round_step_put; try done. intros ->. congruence.
  - destruct (update_case_effect env id data user w)
      as [Heq|(c0 & c0' & Hc0 & Hupd & Heq)]; rewrite Heq in *;
      [by apply Hsame|].
    apply round_step_put; try done. intros ->.
    assert (c0 = c) as -> by congruence.
    by destruct (apply_update_keeps _ _ _ _ Hupd) as (? & ? & _).
  - destruct (delete_case_effect id user w) as [Heq|Heq]; rewrite Heq in *;
      [by apply Hsame|].
    simpl in Hc'. rewrite lookup_delete in Hc'. case_decide as Hid; [done|].
    assert (c' = c) as -> by congruence. split; [done|]. left. split; [done|].
    unfold case_verdicts. simpl. apply filter_other. congruence.
  - destruct (generate_initial_verdict_effect env id w)
      as [(e & _ & Heq)|(c0 & rq & resp & vd & _ & Hnone & Hc0 & _ & _ & Heq)];
      rewrite Heq in *; [by apply Hsame|].
    pose proof (no_initial_verdict_round _ _ _ Hd Hc0 Hnone) as Hr0.
    apply (round_step_verdict _ _ c0); simpl; try done; lia.
  - destruct (submit_argument_outcome env id side txt user w)
      as [[_ Heq]|(c0 & Hadm & Hcases)]; [rewrite Heq in *; by apply Hsame|].
    destruct Hadm as (Hc0 & _).
    destruct Hcases as [[_ Heq]|[(_ & _ & Heq)|(_ & v & _ & Hid & Hr & Heq)]];
      rewrite Heq in *; [by apply Hsame|by apply Hsame|].
    exact (round_step_verdict
             (add_argument (mkArgument id (current_round c0) side txt user) (db w))
             id c0 (set_progress (status c0) (current_round c0 + 1) (now env) c0)
             v case_id c c' Hc0 Hid Hr eq_refl eq_refl Hc Hc').
  - destruct (finalize_case_effect env id user w)
      as [(e & _ & Heq)|(c0 & Hc0 & _ & _ & _ & _ & Heq)]; rewrite Heq in *;
      [by apply Hsame|].
    apply round_step_put; try done. intros ->.
    assert (c0 = c) as -> by congruence. done.
  - by apply Hsame.
Qed.

(** *** Status, counter and finalization time *)

(** The status is one of the three the services write; draft goes with
    round 0 and finalized with a finalization time. *)
Definition life (c : Case) : Prop :=
  (status c = "draft" ∨ status c = "in_progress" ∨ status c = "finalized")
  ∧ (status c = "draft" ↔ current_round c = 0)
  ∧ (status c = "finalized" ↔ is_Some (finalized_at c)).

Definition lifecycle_ok (d : DB) : Prop :=
  ∀ id c, cases d !! id = Some c → life c.

Lemma lifecycle_put d id c' :
  lifecycle_ok d → life c' → lifecycle_ok (put_case id c' d).
Proof.
  intros Hd Hc' id0 c0. simpl. rewrite lookup_insert. case_decide.
  - by intros [= <-].
  - apply Hd.
Qed.

Lemma run_op_lifecycle env o w :
  sets_status o = false →
  consistent (db w) → lifecycle_ok (db w) →
  lifecycle_ok (db (run_op env o w)).
Proof.
  intros Hst Hd Hl. destruct o as [id number data user|id data user|id user|id
                                   |id side txt user|id user|docs]; simpl.
  - unfold create_case. unfold_m. simpl.
    destruct (cases (db w) !! id); simpl; [done|].
    destruct (bool_decide (number_taken number (db w))); simpl; [done|].
    apply lifecycle_put; [done|]. unfold life. simpl.
    split; [by left|]. split; [done|]. split; [discriminate | by intros [? ?]].
  - destruct (update_case_effect env id data user w)
      as [->|(c & c' & Hc & Hupd & ->)]; [done|].
    apply lifecycle_put; [done|].
    destruct (apply_update_keeps _ _ _ _ Hupd) as (Hr & _ & Hsame).
    destruct (apply_update_frame _ _ _ _ Hupd) as (_ & _ & _ & _ & _ & Hfin & _).
    simpl in Hst. apply bool_decide_eq_false in Hst.
    specialize (Hsame (proj2 (eq_None_not_Some _) Hst)).
    destruct (Hl id c Hc) as (H3 & Hdraft & Hfinal).
    unfold life. by rewrite Hsame, Hr, Hfin.
  - destruct (delete_case_effect id user w) as [->| ->]; [done|].
    intros id0 c0. simpl. rewrite lookup_delete. case_decide; [done|]. apply Hl.
  - destruct (generate_initial_verdict_effect env id w)
      as [(e & _ & ->)|(c & rq & resp & vd & _ & Hnone & Hc & _ & _ & ->)];
      [done|].
    pose proof (no_initial_verdict_round _ _ _ Hd Hc Hnone) as Hr0.
    destruct (Hl id c Hc) as (_ & Hdraft & Hfinal).
    apply lifecycle_put; [done|]. unfold life. simpl.
    split; [right; by left|]. split; [split; [discriminate | lia]|].
    rewrite <- Hfinal. apply Hdraft in Hr0. rewrite Hr0. done.
  - destruct (submit_argument_outcome env id side txt user w)
      as [[_ ->]|(c & Hadm & Hcases)]; [done|].
    destruct Hadm as (Hc & Hnf & Hnd & _).
    destruct Hcases as [[_ ->]|[(_ & _ & ->)|(_ & v & _ & _ & _ & ->)]];
      [done|done|].
    destruct Hd as [Hok _]. destruct (Hok id c Hc) as (Hr & _ & _).
    destruct (Hl id c Hc) as (H3 & Hdraft & Hfinal).
    apply lifecycle_put; [done|]. unfold life. simpl.
    split; [done|]. split; [split; [done | lia] | done].
  - destruct (finalize_case_effect env id user w)
      as [(e & _ & ->)|(c & Hc & _ & _ & Hv & _ & ->)]; [done|].
    apply (has_verdict_rounds _ _ _ 0 Hd Hc) in Hv.
    apply lifecycle_put; [done|]. unfold life. simpl.
    split; [right; by right|]. split; [split; [discriminate | lia]|].
    split; [by eexists | done].
  - done.
Qed.

Lemma foldl_run_lifecycle (h : list (Env * op)) w :
  status_by_service_only h →
  consistent (db w) → lifecycle_ok (db w) →
  lifecycle_ok (db (foldl (λ w eo, run_op eo.1 eo.2 w) w h)).
Proof.
  revert w. induction h as [|[env o] h IH]; intros w Hh Hw Hl; [done|].
  apply Forall_cons in Hh as [Ho Hh]. simpl. apply IH; [done| |].
  - by apply run_op_consistent.
  - by apply run_op_lifecycle.
Qed.

(** X14. After a history in which no case update wrote the status
    column: the status of a case is draft, in_progress or finalized; it
    is draft exactly when the counter is 0, which is exactly when the
    case has no round-0 verdict; and it is finalized exactly when the
    finalization time is set. *)
Theorem status_follows_service h case_id c :
  status_by_service_only h →
  cases (db (run h)) !! case_id = Some c →
  (status c = "draft" ∨ status c = "in_progress" ∨ status c = "finalized")
  ∧ (status c = "draft" ↔ current_round c = 0)
  ∧ (status c = "draft" ↔ ¬ has_verdict case_id 0 (db (run h)))
  ∧ (status c = "finalized" ↔ is_Some (finalized_at c)).
Proof.
  intros Hh Hc.
  assert (Hl : lifecycle_ok (db (run h))).
  { apply foldl_run_lifecycle; [done | apply consistent_empty |].
    intros ? ?. simpl. by rewrite lookup_empty. }
  destruct (Hl case_id c Hc) as (H3 & Hdraft & Hfinal).
  pose proof (has_verdict_rounds _ _ _ 0 (run_consistent h) Hc) as Hv.
  destruct (run_consistent h) as [Hok _].
  destruct (Hok case_id c Hc) as (Hr & _ & _).
  split; [done|]. split; [done|]. split; [|done].
  rewrite Hdraft, Hv. lia.
Qed.

(** *** A round left without its verdict *)

Definition argues_for (case_id : UUID) (eo : Env * op) : Prop :=
  ∃ side txt user, eo.2 = SubmitArgument case_id side txt user
                   ∧ (side = "A" ∨ side = "B").

(** X15. Once both sides have an argument for the round a case is in
    (the adjudication of that round failed), [submit_argument] turns
    both sides away and changes nothing: no sequence of submissions by
    side A or B brings the verdict or moves the counter. *)
Theorem round_without_verdict_is_stuck case_id c w (tail : list (Env * op)) :
  cases (db w) !! case_id = Some c →
  both_sides_in case_id (current_round c) (db w) →
  Forall (argues_for case_id) tail →
  foldl (λ w eo, run_op eo.1 eo.2 w) w tail = w.
Proof.
  intros Hc [HA HB] Htail. induction Htail as [|[env o] tail Ho _ IH]; [done|].
  destruct Ho as (side & txt & user & Ho & Hside). simpl in Ho. subst o.
  simpl. replace (submit_argument env case_id side txt user w).1 with w; [done|].
  destruct (submit_argument_rejections env case_id side txt user w c Hc)
    as (Hfin & Hdraft & Hlimit & Hdup).
  destruct (decide (status c = "finalized")) as [?|Hnf]; [by rewrite Hfin|].
  destruct (decide (status c = "draft")) as [?|Hnd]; [by rewrite Hdraft|].
  destruct (decide (current_round c >= max_rounds c)) as [?|Hlt];
    [by rewrite Hlimit|].
  rewrite Hdup; try done; [lia|]. by destruct Hside as [-> | ->].
Qed.

(** *** The endpoints *)

Lemma generate_initial_verdict_rejections env case_id w c :
  cases (db w) !! case_id = Some c →
  let docs := ready_documents case_id (db w) in
  let out := generate_initial_verdict env case_id w in
  (has_verdict case_id 0 (db w) →
     out = (w, inl (Exception "Round 0 verdict already exists for this case")))
  ∧ (¬ has_verdict case_id 0 (db w) → docs_of_side "A" docs = [] →
     out = (w, inl (ValueError "Side A has not submitted any documents")))
  ∧ (¬ has_verdict case_id 0 (db w) → docs_of_side "A" docs ≠ [] →
     docs_of_side "B" docs = [] →
     out = (w, inl (ValueError "Side B has not submitted any documents")))
  ∧ (¬ has_verdict case_id 0 (db w) → docs_of_side "A" docs ≠ [] →
     docs_of_side "B" docs ≠ [] →
     (∃ d, d ∈ docs_of_side "A" docs ++ docs_of_side "B" docs
           ∧ full_text d = None) →
     out = (w, inl (TypeError "'NoneType' object is not subscriptable"))).
Proof.
  intros Hc docs out. subst out. split; [|split; [|split]].
  - intros Hv. apply find_verdict_Some in Hv as [v0 Hv0].
    unfold generate_initial_verdict. unfold_m. simpl. by rewrite Hv0.
  - intros Hno HA. apply find_verdict_None in Hno.
    unfold generate_initial_verdict, fetch_case_context.
    unfold_m. simpl. rewrite Hno, Hc. simpl. fold docs.
    unfold validate_documents. simpl. by rewrite HA.
  - intros Hno HA HB. apply find_verdict_None in Hno.
    unfold generate_initial_verdict, fetch_case_context.
    unfold_m. simpl. rewrite Hno, Hc. simpl. fold docs.
    unfold validate_documents. simpl. rewrite HB.
    by destruct (docs_of_side "A" docs).
  - intros Hno HA HB Hd. apply find_verdict_None in Hno.
    assert (Hp : build_verdict_prompt (context_of case_id c (db w)) 0
                 = inl (TypeError "'NoneType' object is not subscriptable"))
      by (by apply build_verdict_prompt_raises).
    unfold generate_initial_verdict, fetch_case_context.
    unfold_m. simpl. rewrite Hno, Hc. simpl. fold docs.
    unfold validate_documents. simpl.
    destruct (docs_of_side "A" docs) as [|a la] eqn:HdA; [done|].
    destruct (docs_of_side "B" docs) as [|b lb] eqn:HdB; [done|]. simpl.
    unfold context_of in Hp. fold docs in Hp. rewrite HdA, HdB in Hp.
    by rewrite Hp.
Qed.

Section Endpoints.

#[local] Arguments argument_error_status : simpl never.
#[local] Arguments str_contains : simpl never.

Lemma status_of_duplicate side r :
  side = "A" ∨ side = "B" → (0 ≤ r < 5)%Z →
  argument_error_status
    ("Side " +:+ side +:+ " has already submitted an argument for round "
     +:+ pretty r) = 409.
Proof.
  intros Hside Hr.
  assert (Hcases : r = 0 ∨ r = 1 ∨ r = 2 ∨ r = 3 ∨ r = 4) by lia.
  destruct Hside as [-> | ->];
    destruct Hcases as [->|[->|[->|[->| ->]]]]; vm_compute; reflexivity.
Qed.

(** X16. The argument endpoint, called by the owner after any history,
    reads its status code off the text of the exception: 422 on a
    finalized case, 422 at the round limit, 409 when the side (A or B)
    has already argued in the round, but 500 on a draft case, whose
    message names none of the words the endpoint looks for.  In each of
    these cases the world is unchanged. *)
Theorem argument_endpoint_statuses h env case_id data user c :
  cases (db (run h)) !! case_id = Some c → created_by c = user →
  let out := api_arguments.submit_argument env case_id data user (run h) in
  (status c = "finalized" →
     out = (run h, inl (HTTPException 422
                          "Cannot submit arguments to a finalized case")))
  ∧ (status c = "draft" →
     out = (run h, inl (HTTPException 500
       "Case must have an initial verdict before arguments can be submitted")))
  ∧ (status c ≠ "finalized" → status c ≠ "draft" →
     current_round c >= max_rounds c →
     out = (run h, inl (HTTPException 422
       "Maximum rounds (5) already reached. Case ready for finalization.")))
  ∧ (status c ≠ "finalized" → status c ≠ "draft" →
     current_round c < max_rounds c →
     ac_side data = "A" ∨ ac_side data = "B" →
     has_argument case_id (current_round c) (ac_side data) (db (run h)) →
     out = (run h, inl (HTTPException 409
       ("Side " +:+ ac_side data
        +:+ " has already submitted an argument for round "
        +:+ pretty (current_round c))))).
Proof.
  intros Hc Hown out. subst out.
  destruct (run_consistent h) as [Hok _].
  destruct (Hok case_id c Hc) as (Hr & Hmax & _). clear Hok.
  set (w := run h) in *.
  destruct (submit_argument_rejections env case_id (ac_side data)
              (ac_argument_text data) user w c Hc)
    as (Hfin & Hdraft & Hlimit & Hdup).
  unfold api_arguments.submit_argument. unfold_m.
  rewrite (owned_case_owner _ _ _ _ Hc Hown).
  split; [|split; [|split]].
  - intros Hst. rewrite (Hfin Hst). simpl. do 3 f_equal.
  - intros Hst. rewrite (Hdraft Hst). simpl. do 3 f_equal.
  - intros Hnf Hnd Hge. rewrite (Hlimit Hnf Hnd Hge). simpl. rewrite Hmax.
    do 3 f_equal.
  - intros Hnf Hnd Hlt Hside Hhas. rewrite (Hdup Hnf Hnd Hlt Hhas). simpl.
    rewrite status_of_duplicate; [done | done | lia].
Qed.

(** X17. The round-0 endpoint, called by the owner: 409 when the round-0
    verdict exists, 422 with the message of the missing side when a side
    has no ready document, 500 when a ready document has no text.  It
    answers with a [VerdictResponse] exactly when the service returns a
    verdict that fits the schema.  An error answer means that nothing
    was stored, with one exception: a verdict that the service returned
    and the schema rejects is answered with 500 after it was stored and
    the case was advanced. *)
Theorem initial_verdict_endpoint_statuses env case_id user w c :
  cases (db w) !! case_id = Some c → created_by c = user →
  let docs := ready_documents case_id (db w) in
  let svc := generate_initial_verdict env case_id w in
  let out := api_verdicts.generate_initial_verdict env case_id user w in
  (has_verdict case_id 0 (db w) →
     out = (w, inl (HTTPException 409
                      "Round 0 verdict already exists for this case")))
  ∧ (¬ has_verdict case_id 0 (db w) → docs_of_side "A" docs = [] →
     out = (w, inl (HTTPException 422 "Side A has not submitted any documents")))
  ∧ (¬ has_verdict case_id 0 (db w) → docs_of_side "A" docs ≠ [] →
     docs_of_side "B" docs = [] →
     out = (w, inl (HTTPException 422 "Side B has not submitted any documents")))
  ∧ (¬ has_verdict case_id 0 (db w) → docs_of_side "A" docs ≠ [] →
     docs_of_side "B" docs ≠ [] →
     (∃ d, d ∈ docs_of_side "A" docs ++ docs_of_side "B" docs
           ∧ full_text d = None) →
     out = (w, inl (HTTPException 500
       "Failed to generate verdict: 'NoneType' object is not subscriptable")))
  ∧ (∀ resp, out.2 = inr resp
             ↔ ∃ v, svc.2 = inr v ∧ verdict_response v = inr resp)
  ∧ (∀ e, out.2 = inl e →
       db out.1 = db w
       ∨ ∃ v, svc.2 = inr v
              ∧ verdict_data (verdict_json v) = None
              ∧ e = HTTPException 500 "Internal Server Error"
              ∧ verdicts (db out.1) = verdicts (db w) ++ [v]
              ∧ cases (db out.1) !! case_id
                = Some (set_progress "in_progress" 1 (now env) c)).
Proof.
  intros Hc Hown docs svc out. subst out.
  destruct (generate_initial_verdict_rejections env case_id w c Hc)
    as (Hexists & HsideA & HsideB & Hnull).
  fold docs in HsideA, HsideB, Hnull.
  pose proof (generate_initial_verdict_effect env case_id w) as Heff.
  unfold api_verdicts.generate_initial_verdict. unfold_m.
  rewrite (owned_case_owner _ _ _ _ Hc Hown).
  split; [|split; [|split; [|split; [|split]]]].
  - intros Hv. rewrite (Hexists Hv). simpl. done.
  - intros Hno HA. by rewrite (HsideA Hno HA).
  - intros Hno HA HB. by rewrite (HsideB Hno HA HB).
  - intros Hno HA HB Hd. rewrite (Hnull Hno HA HB Hd). simpl. done.
  - intros resp. fold svc. destruct svc as [w1 [e1|v1]]; simpl.
    + split; [|by intros (? & [=] & _)].
      destruct e1; simpl; try discriminate;
        by destruct (str_contains "already exists" _).
    + unfold response_model. destruct (verdict_response v1) as [msg|r1] eqn:Hr1;
        simpl.
      * split; [discriminate|]. intros (v & [= <-] & Hv). congruence.
      * split.
        -- intros [= <-]. by exists v1.
        -- intros (v & [= <-] & Hv). congruence.
  - intros e. fold svc in Heff |- *.
    destruct Heff as [(e0 & He0 & Hdb)|(c0 & rq & resp & vd & Hout & _ & Hc0 & _
                                         & _ & Hdb)].
    + destruct svc as [w1 [e1|v1]]; simpl in *; [|discriminate].
      intros _. left. destruct e1; simpl; try done;
        by destruct (str_contains "already exists" _).
    + destruct svc as [w1 [e1|v1]]; simpl in *; [discriminate|].
      injection Hout as ->. unfold response_model, verdict_response. simpl.
      destruct (verdict_data vd) eqn:Hvd; simpl; [discriminate|].
      intros [= <-]. right. eexists. split; [done|]. split; [done|].
      split; [done|]. rewrite Hdb. simpl. split; [done|].
      rewrite lookup_insert_eq. congruence.
Qed.

(** X18. Every endpoint answers 404 for an unknown case and 403 for a
    caller who did not create the case, before doing anything else: the
    store and the request log are as they were. *)
Theorem endpoints_check_owner env case_id user data r w :
  (cases (db w) !! case_id = None
   ∨ ∃ c, cases (db w) !! case_id = Some c ∧ created_by c ≠ user) →
  ∃ code detail,
    (code = 404 ∧ detail = "Case not found" ∧ cases (db w) !! case_id = None
     ∨ code = 403 ∧ detail = "Access denied"
       ∧ is_Some (cases (db w) !! case_id))
    ∧ api_arguments.submit_argument env case_id data user w
      = (w, inl (HTTPException code detail))
    ∧ api_verdicts.generate_initial_verdict env case_id user w
      = (w, inl (HTTPException code detail))
    ∧ api_verdicts.get_all_verdicts case_id user w
      = (w, inl (HTTPException code detail))
    ∧ ((0 ≤ r ≤ 5)%Z →
       api_verdicts.get_verdict_by_round case_id r user w
       = (w, inl (HTTPException code detail)))
    ∧ finalize_case env case_id user w = (w, inl (HTTPException code detail)).
Proof.
  intros Hcase.
  assert (Hgate : ∃ code detail,
    (code = 404 ∧ detail = "Case not found" ∧ cases (db w) !! case_id = None
     ∨ code = 403 ∧ detail = "Access denied"
       ∧ is_Some (cases (db w) !! case_id))
    ∧ owned_case case_id user w = (w, inl (HTTPException code detail))
    ∧ finalize_case env case_id user w = (w, inl (HTTPException code detail))).
  { unfold finalize_case. unfold_m. simpl.
    destruct Hcase as [Hnone|(c & Hc & Hother)].
    - exists 404, "Case not found". rewrite (owned_case_unknown _ _ _ Hnone).
      rewrite Hnone. split; [by left | done].
    - exists 403, "Access denied".
      rewrite (owned_case_stranger _ _ _ _ Hc Hother), Hc.
      rewrite decide_True by done. split; [right; by repeat split | done]. }
  destruct Hgate as (code & detail & Hcode & Hgate & Hfinalize).
  exists code, detail. split; [done|].
  unfold api_arguments.submit_argument, api_verdicts.generate_initial_verdict,
    api_verdicts.get_all_verdicts, api_verdicts.get_verdict_by_round.
  unfold_m. rewrite Hgate. repeat split; try done.
  intros Hr. rewrite decide_False by lia. by rewrite Hgate.
Qed.

End Endpoints.

End Coverage.

(** ** Scenarios for the readers and the endpoints *)

(** X2: the argument of side A in round 1 of the opened case. *)
Lemma arguments_within_rounds_witness :
  ∃ c, cases (db w_waiting) !! "c1" = Some c
       ∧ (0 ≤ 1 ≤ current_round c)%Z ∧ (1 < max_rounds c)%Z.
Proof.
  apply (@arguments_within_rounds sample_builtins
           (opened ++ [ (good_env, SubmitArgument "c1" "A" plea "u1") ])
           (mkArgument "c1" 1 "A" plea "u1")).
  vm_compute. apply list_elem_of_here.
Defined.

(** X3: the verdict of round 1 has both arguments behind it. *)
Lemma verdict_follows_both_arguments_witness :
  both_sides_in "c1" 1 (db w_round_2).
Proof.
  apply (@verdict_follows_both_arguments sample_builtins round_1 v_round_1).
  - vm_compute. apply list_elem_of_further, list_elem_of_here.
  - vm_compute. discriminate.
Defined.

(** What the schema makes of the sample replies. *)
Definition data_of_reply : VerdictData := mkVerdictData "s" "A" 1 [] "d" [].

Definition r_opened : VerdictResponse :=
  mkVerdictResponse "c1" 0 data_of_reply "gpt-4o-mini" (Some 300).

Definition r_round_1 : VerdictResponse :=
  mkVerdictResponse "c1" 1 data_of_reply "gpt-4o-mini" (Some 300).

(** X4: on the adjudicated case the owner reads round 1 and is told that
    round 2 is not there. *)
Lemma verdict_lookup_by_round_witness :
  (@api_verdicts.get_verdict_by_round sample_schemas "c1" 1 "u1" w_round_2).2
  = inr r_round_1
  ∧ (@api_verdicts.get_verdict_by_round sample_schemas "c1" 2 "u1" w_round_2).2
    = inl (HTTPException 404 "Verdict for round 2 not found").
Proof.
  split.
  - destruct (@verdict_lookup_by_round sample_builtins sample_schemas round_1
                "c1" "u1" c_round_2 1) as (_ & _ & Hfound & _).
    + vm_compute. reflexivity.
    + reflexivity.
    + destruct Hfound as (v & Hin & _ & Hr & Hout).
      * split; [discriminate | reflexivity].
      * assert (Hrows : verdicts (db (@run sample_builtins round_1))
                        = [v_opened; v_round_1]) by (vm_compute; reflexivity).
        rewrite Hrows in Hin.
        apply elem_of_cons in Hin as [Hv|Hin];
          [rewrite Hv in Hr; vm_compute in Hr; discriminate Hr|].
        apply list_elem_of_singleton in Hin.
        etransitivity; [exact Hout|]. rewrite Hin. vm_compute. reflexivity.
  - destruct (@verdict_lookup_by_round sample_builtins sample_schemas round_1
                "c1" "u1" c_round_2 2) as (_ & _ & _ & Hmissing).
    + vm_compute. reflexivity.
    + reflexivity.
    + apply Hmissing. split; discriminate.
Defined.

(** X5: the two verdicts of the adjudicated case, in round order. *)
Lemma all_verdicts_in_round_order_witness :
  @api_verdicts.get_all_verdicts sample_schemas "c1" "u1" w_round_2
  = (w_round_2, inr [r_opened; r_round_1])
  ∧ v_round <$> case_verdicts "c1" (db w_round_2) = seqZ 0 2.
Proof.
  destruct (@all_verdicts_in_round_order sample_builtins sample_schemas round_1
              "c1" "u1" c_round_2) as (Hout & Hrounds & _).
  - vm_compute. reflexivity.
  - reflexivity.
  - split; [|exact Hrounds].
    etransitivity; [exact Hout|]. vm_compute. reflexivity.
Defined.

(** X7: a context whose side B holds a document without text. *)
Lemma initial_prompt_needs_text_witness :
  build_verdict_prompt (mkContext c_new [contract] [email] [] None) 0
  = inl (TypeError "'NoneType' object is not subscriptable")
  ∧ ∃ p, build_verdict_prompt (mkContext c_new [contract] [scan] [] None) 0
         = inr p.
Proof.
  split.
  - apply (proj1 (initial_prompt_needs_text
                    (mkContext c_new [contract] [email] [] None) 0)).
    split; [reflexivity|]. exists email. split; [|reflexivity].
    apply elem_of_cons. right. apply elem_of_cons. left. reflexivity.
  - apply (proj2 (initial_prompt_needs_text
                    (mkContext c_new [contract] [scan] [] None) 0)).
    intros d Hd. apply elem_of_cons in Hd as [->|Hd]; [eexists; reflexivity|].
    apply elem_of_cons in Hd as [->|Hd]; [eexists; reflexivity|].
    by apply elem_of_nil in Hd.
Defined.

(** X8: the textless document of side B stops the round-0 verdict before
    any request. *)
Lemma initial_verdict_early_exits_witness :
  @generate_initial_verdict sample_builtins good_env "c1" w_textless
  = (w_textless, inl (TypeError "'NoneType' object is not subscriptable"))
  ∧ (@generate_initial_verdict sample_builtins good_env "c1" w_opened).1
    = w_opened.
Proof.
  split.
  - apply (proj2 (@initial_verdict_early_exits sample_builtins good_env "c1"
                    w_textless) c_new).
    + vm_compute. reflexivity.
    + apply find_verdict_None. vm_compute. reflexivity.
    + vm_compute. discriminate.
    + vm_compute. discriminate.
    + exists email. split; [|reflexivity]. vm_compute.
      apply list_elem_of_further, list_elem_of_here.
  - apply (proj1 (@initial_verdict_early_exits sample_builtins good_env "c1"
                    w_opened)).
    left. apply find_verdict_Some. vm_compute. eexists. reflexivity.
Defined.

(** X9: the round-0 verdict of the samples. *)
Lemma initial_verdict_success_witness :
  ∃ items winner,
    verdict_json v_opened = JObj items
    ∧ dict_get "winner" items = Some (JStr winner) ∧ a_winner winner
    ∧ length (oracle_calls
                (@generate_initial_verdict sample_builtins good_env "c1"
                   w_evidence).1) = 1%nat.
Proof.
  destruct (@initial_verdict_success sample_builtins good_env "c1" w_evidence
              v_opened)
    as (c & p & resp & items & winner & _ & _ & Hcalls & _ & _ & Hv & _ & Hw & Ha).
  - vm_compute. reflexivity.
  - exists items, winner. rewrite Hv, Hcalls. repeat split; assumption.
Defined.

(** X10: the creator deletes the opened case; another user cannot. *)
Lemma delete_case_cascade_witness :
  delete_case "c1" "u2" w_opened = (w_opened, inr false)
  ∧ case_verdicts "c1" (db (delete_case "c1" "u1" w_opened).1) = []
  ∧ cases (db (delete_case "c1" "u1" w_opened).1) !! "c1" = None.
Proof.
  destruct (delete_case_cascade "c1" "u2" w_opened) as [Hdenied _].
  destruct (delete_case_cascade "c1" "u1" w_opened) as [_ Hdone].
  split.
  - apply Hdenied. right. exists c_opened.
    split; [vm_compute; reflexivity | discriminate].
  - destruct Hdone as (_ & _ & Hrow & _ & _ & Hverdicts & _).
    + exists c_opened. split; [vm_compute; reflexivity | reflexivity].
    + split; [exact Hverdicts | exact Hrow].
Defined.

(** X11: the creator renames the opened case. *)
Lemma update_case_frame_witness :
  update_case good_env "c1" rename "u2" w_opened = (w_opened, inr None)
  ∧ ∃ c', cases (db (update_case good_env "c1" rename "u1" w_opened).1) !! "c1"
          = Some c'
          ∧ current_round c' = 1 ∧ finalized_at c' = None.
Proof.
  destruct (update_case_frame good_env "c1" rename "u2" w_opened)
    as [Hdenied _].
  destruct (update_case_frame good_env "c1" rename "u1" w_opened)
    as (_ & _ & _ & _ & _ & Hrows).
  split.
  - apply Hdenied. right. exists c_opened.
    split; [vm_compute; reflexivity | discriminate].
  - destruct (Hrows "c1" c_opened) as (c' & Hc' & _ & Hr & _ & _ & _ & _ & Hf).
    + vm_compute. reflexivity.
    + exists c'. split; [exact Hc'|]. split; [exact Hr | exact Hf].
Defined.

(** X12: an argument for the first case leaves the second one alone. *)
Lemma other_cases_untouched_witness :
  case_view "c2"
    (db (@run_op sample_builtins good_env (SubmitArgument "c1" "A" plea "u1")
           (@run sample_builtins two_cases)))
  = case_view "c2" (db (@run sample_builtins two_cases)).
Proof.
  apply (@other_cases_untouched sample_builtins good_env
           (SubmitArgument "c1" "A" plea "u1") (@run sample_builtins two_cases)
           "c1" "c2").
  - reflexivity.
  - discriminate.
Defined.

(** X13: the submission of side B after side A moves the counter from 1
    to 2 together with the verdict of round 1. *)
Lemma counter_moves_with_verdict_witness :
  round_step "c1" c_opened c_round_2 (db w_waiting)
    (db (@run_op sample_builtins good_env (SubmitArgument "c1" "B" reply "u1")
           w_waiting)).
Proof.
  apply (@counter_moves_with_verdict sample_builtins
           (opened ++ [ (good_env, SubmitArgument "c1" "A" plea "u1") ])
           good_env (SubmitArgument "c1" "B" reply "u1") "c1" c_opened
           c_round_2).
  - vm_compute. reflexivity.
  - vm_compute. reflexivity.
Defined.

(** X14: the finalized case of the samples. *)
Lemma status_follows_service_witness :
  (status c_finalized = "finalized" ↔ is_Some (finalized_at c_finalized))
  ∧ (status c_finalized = "draft" ↔ ¬ has_verdict "c1" 0 (db w_finalized)).
Proof.
  destruct (@status_follows_service sample_builtins
              (opened ++ [ (good_env, FinalizeCase "c1" "u1") ]) "c1"
              c_finalized) as (_ & _ & Hdraft & Hfinal).
  - repeat constructor.
  - vm_compute. reflexivity.
  - split; [exact Hfinal | exact Hdraft].
Defined.

(** X15: in the stuck round both sides try again. *)
Lemma round_without_verdict_is_stuck_witness :
  foldl (λ w eo, @run_op sample_builtins eo.1 eo.2 w) w_stuck
    [ (good_env, SubmitArgument "c1" "A" plea "u1");
      (good_env, SubmitArgument "c1" "B" reply "u1") ]
  = w_stuck.
Proof.
  apply (@round_without_verdict_is_stuck sample_builtins "c1" c_opened).
  - vm_compute. reflexivity.
  - split; apply find_argument_Some; vm_compute; eexists; reflexivity.
  - apply Forall_cons. split.
    + exists "A", plea, "u1". split; [reflexivity | left; reflexivity].
    + apply Forall_cons. split; [|apply Forall_nil; exact I].
      exists "B", reply, "u1". split; [reflexivity | right; reflexivity].
Defined.

(** X16: an argument sent for the new case, still a draft, answers 500. *)
Lemma argument_endpoint_statuses_witness :
  @api_arguments.submit_argument sample_builtins sample_schemas good_env "c1"
    (mkArgumentCreate "A" plea) "u1" w_new
  = (w_new, inl (HTTPException 500
       "Case must have an initial verdict before arguments can be submitted")).
Proof.
  destruct (@argument_endpoint_statuses sample_builtins sample_schemas
              [ (good_env, CreateCase "c1" "CAS-2025-ABCDEF" new_case "u1") ]
              good_env "c1" (mkArgumentCreate "A" plea) "u1" c_new)
    as (_ & Hdraft & _).
  - vm_compute. reflexivity.
  - reflexivity.
  - apply Hdraft. reflexivity.
Defined.

(** X17: a second round-0 request for the opened case answers 409. *)
Lemma initial_verdict_endpoint_statuses_witness :
  @api_verdicts.generate_initial_verdict sample_builtins sample_schemas good_env
    "c1" "u1" w_opened
  = (w_opened, inl (HTTPException 409
                      "Round 0 verdict already exists for this case")).
Proof.
  destruct (@initial_verdict_endpoint_statuses sample_builtins sample_schemas
              good_env "c1" "u1" w_opened c_opened) as (Hexists & _).
  - vm_compute. reflexivity.
  - reflexivity.
  - apply Hexists. apply find_verdict_Some. vm_compute. eexists. reflexivity.
Defined.

(** X18: another user asks for the verdicts of the opened case. *)
Lemma endpoints_check_owner_witness :
  ∃ code detail,
    @api_verdicts.get_all_verdicts sample_schemas "c1" "u2" w_opened
    = (w_opened, inl (HTTPException code detail))
    ∧ @finalize_case good_env "c1" "u2" w_opened
      = (w_opened, inl (HTTPException code detail)).
Proof.
  destruct (@endpoints_check_owner sample_builtins sample_schemas good_env "c1"
              "u2" (mkArgumentCreate "A" plea) 0 w_opened)
    as (code & detail & _ & _ & _ & Hall & _ & Hfinalize).
  - right. exists c_opened. split; [vm_compute; reflexivity | discriminate].
  - exists code, detail. split; [exact Hall | exact Hfinalize].
Defined.

(** *** What the claims meet in the code *)

(** C4: the round that the unreachable model left open.  Both arguments
    are in the store, and no request brings the verdict of round 1
    without storing a further argument: the retry that the claim
    speaks of is not there. *)
Lemma failed_adjudication_has_no_retry :
  w_stuck = (@submit_argument sample_builtins down_env "c1" "B" reply "u1"
               w_waiting).1
  ∧ both_sides_in "c1" 1 (db w_stuck)
  ∧ ¬ @retry_as_specified sample_builtins "c1" w_stuck.
Proof.
  split; [vm_compute; reflexivity|]. split.
  - split; apply find_argument_Some; vm_compute; eexists; reflexivity.
  - intros (env & o & c & Hc & Hargs & Hv).
    assert (Hc0 : cases (db w_stuck) !! "c1" = Some c_opened)
      by (vm_compute; reflexivity).
    pose proof (eq_trans (eq_sym Hc0) Hc) as Heq. injection Heq as <-.
    apply find_verdict_Some in Hv. destruct Hv as (v & Hin & _ & Hr).
    change (current_round c_opened) with 1 in Hr.
    destruct (@request_without_argument sample_builtins env o w_stuck v Hargs Hin)
      as [Hold|Hzero].
    + assert (Hrows : verdicts (db w_stuck) = [v_opened])
        by (vm_compute; reflexivity).
      rewrite Hrows in Hold. apply list_elem_of_singleton in Hold.
      rewrite Hold in Hr. vm_compute in Hr. discriminate Hr.
    + rewrite Hzero in Hr. discriminate Hr.
Qed.

(** C5: the model answers the round-0 request with confidence_score 5.
    The reply is invalid in the claim's wording and for the [VerdictData]
    schema of the repository, yet [parse_verdict_json] returns it, the
    service stores it as Verdict(round=0) and moves the case to
    in_progress at round 1.  Whatever pydantic does elsewhere, the
    endpoint then answers the very request that stored the verdict with
    status 500, and so do both reading endpoints from then on.  On the
    argument path the winner is not checked either: a reply naming "C",
    which [parse_verdict_json] rejects, is stored as Verdict(round=1). *)
Theorem confidence_out_of_range_is_stored :
  let svc := @generate_initial_verdict sample_builtins sure_env "c1" w_evidence in
  @invalid_as_specified sample_builtins (reply_text "A" "5") = true
  ∧ @parse_verdict_json sample_builtins (reply_text "A" "5")
    = inr (reply_json "A" 5)
  ∧ svc = (w_sure, inr v_sure)
  ∧ verdicts (db w_sure) = [v_sure]
  ∧ cases (db w_sure) !! "c1" = Some c_opened
  ∧ (∀ S : Schemas,
       @verdict_data S (verdict_json v_sure) = None
       ∧ @api_verdicts.generate_initial_verdict sample_builtins S sure_env
           "c1" "u1" w_evidence
         = (w_sure, inl (HTTPException 500 "Internal Server Error"))
       ∧ @api_verdicts.get_verdict_by_round S "c1" 0 "u1" w_sure
         = (w_sure, inl (HTTPException 500 "Internal Server Error"))
       ∧ @api_verdicts.get_all_verdicts S "c1" "u1" w_sure
         = (w_sure, inl (HTTPException 500 "Internal Server Error")))
  ∧ (∃ e, @parse_verdict_json sample_builtins (reply_text "C" "1") = inl e)
  ∧ verdict_json <$> verdicts (db (@submit_argument sample_builtins
                                     (answers (reply_text "C" "1") 7) "c1" "B"
                                     reply "u1" w_waiting).1)
    = [reply_json "A" 1; reply_json "C" 1].
Proof.
  intros svc.
  split; [vm_compute; reflexivity|]. split; [vm_compute; reflexivity|].
  split; [vm_compute; reflexivity|]. split; [vm_compute; reflexivity|].
  split; [vm_compute; reflexivity|]. split.
  - intros S. split; [vm_compute; reflexivity|].
    split; [vm_compute; reflexivity|].
    split; vm_compute; reflexivity.
  - split; [vm_compute; eexists; reflexivity | vm_compute; reflexivity].
Qed.

(** *** A new case *)

Section NewCase.

Context `{Builtins}.


(** *** Case numbers *)

Definition numbers_unique (m : gmap UUID Case) : Prop :=
  ∀ i j ci cj, m !! i = Some ci → m !! j = Some cj →
    case_number ci = case_number cj → i = j.

Lemma numbers_insert_same m id c c' :
  m !! id = Some c → case_number c' = case_number c →
  numbers_unique m → numbers_unique (<[id := c']> m).
Proof.
  intros Hc Hnum Hm i j ci cj Hi Hj Heq.
  destruct (decide (i = id)) as [->|Hni], (decide (j = id)) as [->|Hnj];
    [done| | |].
  - rewrite lookup_insert_eq in Hi. rewrite lookup_insert_ne in Hj by done.
    injection Hi as <-. apply (Hm id j c cj); congruence.
  - rewrite lookup_insert_eq in Hj. rewrite lookup_insert_ne in Hi by done.
    injection Hj as <-. apply (Hm i id ci c); congruence.
  - rewrite lookup_insert_ne in Hi, Hj by done. by apply (Hm i j ci cj).
Qed.

Lemma numbers_insert_new m id c' :
  (∀ j cj, m !! j = Some cj → case_number cj ≠ case_number c') →
  numbers_unique m → numbers_unique (<[id := c']> m).
Proof.
  intros Hfree Hm i j ci cj Hi Hj Heq.
  destruct (decide (i = id)) as [->|Hni], (decide (j = id)) as [->|Hnj];
    [done| | |].
  - rewrite lookup_insert_eq in Hi. rewrite lookup_insert_ne in Hj by done.
    injection Hi as <-. by destruct (Hfree j cj Hj).
  - rewrite lookup_insert_eq in Hj. rewrite lookup_insert_ne in Hi by done.
    injection Hj as <-. by destruct (Hfree i ci Hi).
  - rewrite lookup_insert_ne in Hi, Hj by done. by apply (Hm i j ci cj).
Qed.

Lemma numbers_delete m id : numbers_unique m → numbers_unique (delete id m).
Proof.
  intros Hm i j ci cj Hi Hj. apply lookup_delete_Some in Hi as [_ Hi].
  apply lookup_delete_Some in Hj as [_ Hj]. by apply (Hm i j ci cj).
Qed.

Lemma run_op_numbers env o w :
  numbers_unique (cases (db w)) → numbers_unique (cases (db (run_op env o w))).
Proof.
  intros Hm. destruct o as [id number data user|id data user|id user|id
                           |id side txt user|id user|docs]; simpl.
  - unfold create_case. unfold_m. simpl.
    destruct (cases (db w) !! id); simpl; [done|].
    destruct (bool_decide (number_taken number (db w))) eqn:Hfree; simpl; [done|].
    apply bool_decide_eq_false in Hfree.
    apply numbers_insert_new; [|done]. simpl. intros j cj Hj Hnum.
    apply Hfree. by exists j, cj.
  - destruct (update_case_effect env id data user w)
      as [->|(c & c' & Hc & Hupd & ->)]; [done|]. simpl.
    apply (numbers_insert_same _ _ c); [done| |done].
    by destruct (apply_update_frame _ _ _ _ Hupd) as (_ & _ & ? & _).
  - destruct (delete_case_effect id user w) as [->| ->]; [done|]. simpl.
    by apply numbers_delete.
  - destruct (generate_initial_verdict_effect env id w)
      as [(e & _ & ->)|(c & rq & resp & vd & _ & _ & Hc & _ & _ & ->)]; [done|].
    simpl. by apply (numbers_insert_same _ _ c).
  - destruct (submit_argument_effect env id side txt user w)
      as [->|[(a & ->)|(c & a & v0 & Hc & _ & _ & _ & _ & ->)]]; [done|done|].
    simpl. by apply (numbers_insert_same _ _ c).
  - destruct (finalize_case_effect env id user w)
      as [(e & _ & ->)|(c & Hc & _ & _ & _ & _ & ->)]; [done|].
    simpl. by apply (numbers_insert_same _ _ c).
  - done.
Qed.

Lemma foldl_run_numbers (h : list (Env * op)) w :
  numbers_unique (cases (db w)) →
  numbers_unique (cases (db (foldl (λ w eo, run_op eo.1 eo.2 w) w h))).
Proof.
  revert w. induction h as [|[env o] h IH]; intros w Hw; [done|].
  simpl. apply IH. by apply run_op_numbers.
Qed.

(** X22. After any history, two different cases carry different case
    numbers: a case gets its number at creation, which fails on a number
    that is taken, and no request rewrites it. *)
Theorem case_numbers_unique h i j ci cj :
  cases (db (run h)) !! i = Some ci → cases (db (run h)) !! j = Some cj →
  i ≠ j → case_number ci ≠ case_number cj.
Proof.
  intros Hi Hj Hne Heq. apply Hne.
  assert (Hm : numbers_unique (cases (db (run h)))).
  { apply foldl_run_numbers. intros i0 j0 c0 c1 Hnone. simpl in Hnone.
    by rewrite lookup_empty in Hnone. }
  by apply (Hm i j ci cj).
Qed.

End NewCase.


(** X22: the two cases of the samples. *)
Lemma case_numbers_unique_witness :
  case_number c_opened ≠ case_number c_second.
Proof.
  apply (@case_numbers_unique sample_builtins two_cases "c1" "c2").
  - vm_compute. reflexivity.
  - vm_compute. reflexivity.
  - discriminate.
Defined.

(** A second case under the number of the first is refused, and nothing
    is stored. *)
Example taken_number_is_refused :
  create_case good_env "c2" "CAS-2025-ABCDEF" new_case "u2" w_opened
  = (w_opened,
     inl (SQLAlchemyError "duplicate key value violates unique constraint")).
Proof. vm_compute. reflexivity. Qed.

(** *** Finalization, once more *)

Section Terminal.

Context `{Builtins}.

(** X19. [finalize_case] called by the creator of the case: a conflict
    when the case is finalized, a validation error when it has no
    round-0 verdict, and otherwise the case row alone is rewritten: its
    status becomes finalized and its finalization and update times the
    time of the call, every other column as before. *)
Theorem finalize_case_outcomes env case_id user w c :
  cases (db w) !! case_id = Some c → created_by c = user →
  let out := finalize_case env case_id user w in
  (status c = "finalized" →
     out = (w, inl (HTTPException 409 "Case is already finalized")))
  ∧ (status c ≠ "finalized" → ¬ has_verdict case_id 0 (db w) →
     out = (w, inl (HTTPException 422
                      "Cannot finalize case without an initial verdict")))
  ∧ (status c ≠ "finalized" → has_verdict case_id 0 (db w) →
     ∃ c', out = (mkWorld (put_case case_id c' (db w)) (oracle_calls w), inr c')
           ∧ status c' = "finalized"
           ∧ finalized_at c' = Some (now env)
           ∧ updated_at c' = Some (now env)
           ∧ current_round c' = current_round c
           ∧ max_rounds c' = max_rounds c
           ∧ created_by c' = created_by c
           ∧ title c' = title c ∧ description c' = description c
           ∧ case_type c' = case_type c ∧ jurisdiction c' = jurisdiction c
           ∧ case_number c' = case_number c ∧ created_at c' = created_at c).
Proof.
  intros Hc Hown out. subst out. unfold finalize_case. unfold_m. simpl.
  rewrite Hc. rewrite decide_False by (intros Hne; by apply Hne).
  split; [|split].
  - intros Hfin. by rewrite decide_True.
  - intros Hfin Hno. apply find_verdict_None in Hno.
    rewrite decide_False by done. by rewrite Hno.
  - intros Hfin Hv. apply find_verdict_Some in Hv as [v0 Hv0].
    rewrite decide_False by done. rewrite Hv0. simpl.
    exists (set_finalized (now env) c). by repeat split.
Qed.

(** The requests that write arguments, verdicts or the finalization. *)
Definition round_request (o : op) : bool :=
  match o with
  | GenerateInitialVerdict _ | SubmitArgument _ _ _ _ | FinalizeCase _ _ => true
  | _ => false
  end.

(** X20. Finalization is terminal for the services themselves: after a
    history in which no case update wrote the status column, an argument
    submission, a round-0 request or a finalization for a finalized case
    changes nothing, neither the store nor the request log. *)
Theorem finalized_case_is_terminal h env o case_id c :
  status_by_service_only h →
  cases (db (run h)) !! case_id = Some c →
  status c = "finalized" →
  op_case o = Some case_id → round_request o = true →
  run_op env o (run h) = run h.
Proof.
  intros Hh Hc Hfin Hop Hkind.
  assert (Hl : lifecycle_ok (db (run h))).
  { apply foldl_run_lifecycle; [done | apply consistent_empty |].
    intros ? ?. simpl. by rewrite lookup_empty. }
  destruct (Hl case_id c Hc) as (_ & Hdraft & _).
  assert (Hv : has_verdict case_id 0 (db (run h))).
  { apply (has_verdict_rounds _ _ _ 0 (run_consistent h) Hc).
    destruct (run_consistent h) as [Hok _].
    destruct (Hok case_id c Hc) as (Hr & _ & _).
    assert (current_round c ≠ 0); [|lia].
    intros Hzero. apply Hdraft in Hzero. congruence. }
  destruct o as [id number data user|id data user|id user|id
                 |id side txt user|id user|docs]; try discriminate;
    simpl in Hop; injection Hop as ->; simpl.
  - apply (finalized_case_is_closed env case_id "A" "" "" (run h) c Hc Hfin Hv).
  - apply (finalized_case_is_closed env case_id side txt user (run h) c Hc Hfin Hv).
  - destruct (finalize_case_effect env case_id user (run h))
      as [(e & _ & Hsame)|(c0 & Hc0 & _ & Hnf & _)]; [done|].
    assert (c0 = c) as -> by congruence. done.
Qed.

End Terminal.

(** X19: the owner finalizes the opened case; a second call is a
    conflict. *)
Lemma finalize_case_outcomes_witness :
  (finalize_case good_env "c1" "u1" w_opened).2 = inr c_finalized
  ∧ finalize_case good_env "c1" "u1" w_finalized
    = (w_finalized, inl (HTTPException 409 "Case is already finalized")).
Proof.
  split.
  - destruct (finalize_case_outcomes good_env "c1" "u1" w_opened c_opened)
      as (_ & _ & Hdone).
    + vm_compute. reflexivity.
    + reflexivity.
    + destruct Hdone as (c' & Hout & _).
      * discriminate.
      * apply find_verdict_Some. vm_compute. eexists. reflexivity.
      * vm_compute. reflexivity.
  - destruct (finalize_case_outcomes good_env "c1" "u1" w_finalized c_finalized)
      as (Hconflict & _).
    + vm_compute. reflexivity.
    + reflexivity.
    + apply Hconflict. reflexivity.
Defined.

(** X20: an argument for the finalized case of the samples. *)
Lemma finalized_case_is_terminal_witness :
  @run_op sample_builtins good_env (SubmitArgument "c1" "A" plea "u1")
    w_finalized = w_finalized.
Proof.
  apply (@finalized_case_is_terminal sample_builtins
           (opened ++ [ (good_env, FinalizeCase "c1" "u1") ]) good_env
           (SubmitArgument "c1" "A" plea "u1") "c1" c_finalized).
  - repeat constructor.
  - vm_compute. reflexivity.
  - reflexivity.
  - reflexivity.
  - reflexivity.
Defined.
